(** * Disaster Relief Distribution Tracker: storage and query core

    A shallow embedding of the data layer of [final code.py]: the four
    SQLite tables created by [init_db], the three inserting operations
    ([add_person], [add_request], [mark_delivered]), the read-only queries
    ([list_people], [list_pending_requests], [search],
    [delivered_summary_by_area]), the form handler [PeopleTab.on_add] that
    guards [add_person], and the CSV export with the reader that takes
    its file back.

    Conventions.
    - A Python [str] that is stored, compared or written out is a Rocq
      [string]; a character is a code point below 256.  The text of the
      age field, which the handler inspects digit by digit, is a list of
      Unicode code points ([pystr]).  A Python [int] is a [Z].
    - A table is the list of its rows in rowid order together with the
      value that [sqlite_sequence] keeps for it (every table is declared
      [AUTOINCREMENT]).
    - Every operation opens its own connection and runs one statement in a
      [with] block: the statement either commits or raises and leaves the
      store as it was.  An operation that can raise returns a [result].
    - [sqlite3.connect] is used with its defaults: foreign keys are
      declared in the schema but not enforced by the engine, and [LIKE]
      folds the case of ASCII letters.
    - Resource limits of the engine, of the CSV reader and of the file
      system (maximal text length, maximal pattern length, maximal field
      size, exhausted rowids, a full disk) are outside the model, and so
      are texts that hold the character with code 0, where the engine's
      pattern match ends a text. *)

From Stdlib Require Import ZArith List String Ascii Bool Lia.
From Stdlib Require Import Permutation Sorted DecimalString DecimalPos.
Import ListNotations.

Local Open Scope string_scope.
Local Open Scope list_scope.
Local Open Scope Z_scope.

(** ** Python values and exceptions *)

Inductive exn : Type :=
| OverflowError   (* sqlite3: Python int too large to convert to SQLite INTEGER *)
| ValueError      (* int(): invalid literal, or too many digits *)
| CsvError.       (* csv.Error raised by the reader *)

Inductive result (A : Type) : Type :=
| Ok (a : A)
| Raise (e : exn).

Arguments Ok {A} a.
Arguments Raise {A} e.

(** A column value as a query hands it back to Python when the column can
    hold an integer or a text ([COALESCE(age,'')]). *)
Inductive value : Type :=
| Integer (z : Z)
| Text (s : string).

(** ** The storage engine *)

Module Sqlite.

(** A rowid table declared [INTEGER PRIMARY KEY AUTOINCREMENT]. *)
Record Table (R : Type) : Type := mkTable {
  rows : list R;
  seq : Z
}.

Arguments mkTable {R} rows seq.
Arguments rows {R} t.
Arguments seq {R} t.

Definition empty_table {R : Type} : Table R := mkTable [] 0.

Definition max_rowid (ids : list Z) : Z := fold_right Z.max 0 ids.

(** The rowid the engine picks for the next row: one more than the
    largest rowid in the table and than the largest one ever picked. *)
Definition new_rowid {R : Type} (rid : R -> Z) (t : Table R) : Z :=
  Z.max (seq t) (max_rowid (map rid (rows t))) + 1.

(** [INSERT INTO t(...) VALUES (...)]: the row is built from its rowid. *)
Definition insert {R : Type} (rid : R -> Z) (mk : Z -> R) (t : Table R)
  : Table R :=
  let v := new_rowid rid t in
  mkTable (rows t ++ [mk v]) v.

(** [INSERT OR IGNORE] into a table with a [UNIQUE] column: the rowid is
    picked before the constraint is checked, so a row that is dropped
    still advances the sequence. *)
Definition insert_or_ignore {R : Type} (rid : R -> Z) (conflicts : R -> bool)
    (mk : Z -> R) (t : Table R) : Table R :=
  let v := new_rowid rid t in
  if existsb conflicts (rows t) then mkTable (rows t) v
  else mkTable (rows t ++ [mk v]) v.

(** A Python [int] is bound to a statement as a signed 64-bit integer. *)
Definition fits_int64 (z : Z) : bool :=
  (- 2 ^ 63 <=? z) && (z <? 2 ^ 63).

Definition bind_int (z : Z) : result Z :=
  if fits_int64 z then Ok z else Raise OverflowError.

(** [ORDER BY key DESC], as a stable insertion sort: rows with equal
    keys keep the order in which the scan produced them (SQL leaves
    that order open). *)
Fixpoint insert_desc {A : Type} (key : A -> Z) (x : A) (l : list A)
  : list A :=
  match l with
  | [] => [x]
  | y :: l' =>
      if key x <? key y then y :: insert_desc key x l' else x :: l
  end.

Definition order_by_desc {A : Type} (key : A -> Z) (l : list A) : list A :=
  fold_right (insert_desc key) [] l.

(** [a] may stand before [b] in a list ordered by [key DESC]. *)
Definition key_ge {A : Type} (key : A -> Z) (a b : A) : Prop :=
  key b <= key a.

(** [LIKE] with the default settings: [%] matches any run of
    characters, [_] any one character, and any other character matches
    itself up to the case of ASCII letters. *)
Definition lower (c : ascii) : ascii :=
  let n := nat_of_ascii c in
  if (Nat.leb 65 n && Nat.leb n 90)%bool then ascii_of_nat (n + 32) else c.

Definition percent : ascii := "%"%char.
Definition underscore : ascii := "_"%char.

Fixpoint like_chars (pat : list ascii) : list ascii -> bool :=
  match pat with
  | [] => fun s => match s with [] => true | _ :: _ => false end
  | c :: pat' =>
      if Ascii.eqb c percent then
        fix skip (s : list ascii) : bool :=
          (like_chars pat' s ||
           match s with [] => false | _ :: s' => skip s' end)%bool
      else if Ascii.eqb c underscore then
        fun s => match s with [] => false | _ :: s' => like_chars pat' s' end
      else
        fun s =>
          match s with
          | [] => false
          | d :: s' => (Ascii.eqb (lower c) (lower d) && like_chars pat' s')%bool
          end
  end.

(** [text LIKE pattern] *)
Definition like (text pattern : string) : bool :=
  like_chars (list_ascii_of_string pattern) (list_ascii_of_string text).

End Sqlite.

Import Sqlite.

(** ** Schema ([init_db]) *)

Record Person : Type := mkPerson {
  p_id : Z;
  p_name : string;
  p_area : string;
  p_age : option Z          (* [age INTEGER], [None] for NULL *)
}.

Record AidType : Type := mkAidType {
  t_id : Z;
  t_aid_name : string       (* [aid_name TEXT UNIQUE NOT NULL] *)
}.

Record AidRequest : Type := mkAidRequest {
  r_id : Z;
  r_person_id : Z;          (* [FOREIGN KEY(person_id) REFERENCES people(id)] *)
  r_aid_type : string;
  r_request_date : string
}.

Record AidDelivered : Type := mkAidDelivered {
  d_id : Z;
  d_request_id : Z;         (* [FOREIGN KEY(request_id) REFERENCES aid_requests(id)] *)
  d_item_given : string;
  d_delivery_date : string
}.

Record DB : Type := mkDB {
  people : Table Person;
  aid_types : Table AidType;
  aid_requests : Table AidRequest;
  aid_delivered : Table AidDelivered
}.

(** The store right after its file has been created: four empty tables. *)
Definition empty_db : DB :=
  mkDB empty_table empty_table empty_table empty_table.

Definition seed_aid_names : list string :=
  ["Food"; "Medicine"; "Shelter"; "Clothing"; "Water"].

(** One [INSERT OR IGNORE INTO aid_types(aid_name) VALUES(?)]. *)
Definition insert_aid_type (name : string) (t : Table AidType) : Table AidType :=
  insert_or_ignore t_id (fun row => String.eqb (t_aid_name row) name)
                   (fun v => mkAidType v name) t.

(** [init_db]: the four [CREATE TABLE IF NOT EXISTS] leave existing
    tables alone; [executemany] then runs the insert once per seed name,
    in order. *)
Definition init_db (db : DB) : DB :=
  mkDB (people db)
       (fold_left (fun t name => insert_aid_type name t) seed_aid_names
                  (aid_types db))
       (aid_requests db)
       (aid_delivered db).

(** ** Inserting operations *)

(** [age if age else None]: [None] and [0] are both falsy. *)
Definition age_or_none (age : option Z) : option Z :=
  match age with
  | Some a => if a =? 0 then None else Some a
  | None => None
  end.

Definition bind_optional_int (v : option Z) : result (option Z) :=
  match v with
  | None => Ok None
  | Some z => match bind_int z with Ok z' => Ok (Some z') | Raise e => Raise e end
  end.

Definition add_person (name area : string) (age : option Z) (db : DB)
  : result DB :=
  match bind_optional_int (age_or_none age) with
  | Raise e => Raise e
  | Ok stored =>
      Ok (mkDB (insert p_id (fun v => mkPerson v name area stored) (people db))
               (aid_types db) (aid_requests db) (aid_delivered db))
  end.

(** [pid] is the integer the column ends up holding: the form passes the
    decimal text of an id taken from the person list, which the
    [INTEGER] affinity of the column turns into that integer. *)
Definition add_request (pid : Z) (aid_type req_date : string) (db : DB)
  : result DB :=
  match bind_int pid with
  | Raise e => Raise e
  | Ok pid' =>
      Ok (mkDB (people db) (aid_types db)
               (insert r_id (fun v => mkAidRequest v pid' aid_type req_date)
                       (aid_requests db))
               (aid_delivered db))
  end.

Definition mark_delivered (rid : Z) (item d_date : string) (db : DB)
  : result DB :=
  match bind_int rid with
  | Raise e => Raise e
  | Ok rid' =>
      Ok (mkDB (people db) (aid_types db) (aid_requests db)
               (insert d_id (fun v => mkAidDelivered v rid' item d_date)
                       (aid_delivered db)))
  end.

(** ** Queries *)

(** [SELECT id,name,area,COALESCE(age,'') FROM people ORDER BY id DESC] *)
Definition list_people (db : DB) : list (Z * string * string * value) :=
  map (fun p => (p_id p, p_name p, p_area p,
                 match p_age p with Some a => Integer a | None => Text "" end))
      (order_by_desc p_id (rows (people db))).

(** A row of
    [aid_requests r JOIN people p ON p.id=r.person_id
     LEFT JOIN aid_delivered d ON d.request_id=r.id];
    the delivery is [None] where the left join found no partner. *)
Record Joined : Type := mkJoined {
  j_r : AidRequest;
  j_p : Person;
  j_d : option AidDelivered
}.

Definition deliveries_of (db : DB) (rid : Z) : list AidDelivered :=
  filter (fun d => d_request_id d =? rid) (rows (aid_delivered db)).

Definition persons_of (db : DB) (pid : Z) : list Person :=
  filter (fun p => p_id p =? pid) (rows (people db)).

Definition left_join_delivered (db : DB) (r : AidRequest)
  : list (option AidDelivered) :=
  match deliveries_of db (r_id r) with
  | [] => [None]
  | ds => map Some ds
  end.

Definition from_requests (db : DB) : list Joined :=
  flat_map (fun r =>
     flat_map (fun p => map (mkJoined r p) (left_join_delivered db r))
              (persons_of db (r_person_id r)))
    (rows (aid_requests db)).

(** [d.id IS NULL]: the primary key of a matched delivery is never NULL. *)
Definition d_id_is_null (j : Joined) : bool :=
  match j_d j with None => true | Some _ => false end.

Definition pending_rows (db : DB) : list Joined :=
  order_by_desc (fun j => r_id (j_r j)) (filter d_id_is_null (from_requests db)).

Definition pending_select (j : Joined) : Z * string * string * string * string :=
  (r_id (j_r j), p_name (j_p j), p_area (j_p j),
   r_aid_type (j_r j), r_request_date (j_r j)).

Definition list_pending_requests (db : DB)
  : list (Z * string * string * string * string) :=
  map pending_select (pending_rows db).

(** The [WHERE] clause that [search] assembles from its two arguments. *)
Definition area_clause (area : string) (j : Joined) : bool :=
  if String.eqb area "" then true
  else like (p_area (j_p j)) ("%" ++ area ++ "%")%string.

Definition status_clause (status : string) (j : Joined) : bool :=
  if String.eqb status "Pending" then d_id_is_null j
  else if String.eqb status "Delivered" then negb (d_id_is_null j)
  else true.

Definition search_where (area status : string) (j : Joined) : bool :=
  area_clause area j && status_clause status j.

Definition search_rows (area status : string) (db : DB) : list Joined :=
  order_by_desc (fun j => r_id (j_r j))
                (filter (search_where area status) (from_requests db)).

(** [CASE WHEN d.id IS NULL THEN 'PENDING' ELSE d.delivery_date END] *)
Definition status_column (j : Joined) : string :=
  match j_d j with
  | None => "PENDING"
  | Some d => d_delivery_date d
  end.

Definition search_select (j : Joined)
  : string * string * string * string * string :=
  (p_name (j_p j), p_area (j_p j), r_aid_type (j_r j),
   r_request_date (j_r j), status_column j).

Definition search (area status : string) (db : DB)
  : list (string * string * string * string * string) :=
  map search_select (search_rows area status db).

(** A row of
    [aid_delivered d JOIN aid_requests r ON r.id=d.request_id
     JOIN people p ON p.id=r.person_id]. *)
Definition requests_of (db : DB) (rid : Z) : list AidRequest :=
  filter (fun r => r_id r =? rid) (rows (aid_requests db)).

Definition from_delivered (db : DB)
  : list (AidDelivered * AidRequest * Person) :=
  flat_map (fun d =>
     flat_map (fun r => map (fun p => (d, r, p)) (persons_of db (r_person_id r)))
              (requests_of db (d_request_id d)))
    (rows (aid_delivered db)).

(** [GROUP BY] a text column with [COUNT( * )]: one row per distinct key
    (the column compares byte for byte).  SQL fixes no order among the
    groups; no statement below depends on the one chosen here. *)
Definition group_count (keys : list string) : list (string * Z) :=
  map (fun k => (k, Z.of_nat (count_occ string_dec keys k)))
      (nodup string_dec keys).

Definition delivered_summary_by_area (db : DB) : list (string * Z) :=
  order_by_desc snd
    (group_count (map (fun t => p_area (snd t)) (from_delivered db))).

(** The counters of [ReportsTab.refresh]. *)
Definition count_people (db : DB) : Z := Z.of_nat (List.length (list_people db)).
Definition count_pending (db : DB) : Z :=
  Z.of_nat (List.length (list_pending_requests db)).
Definition count_requests (db : DB) : Z :=
  Z.of_nat (List.length (rows (aid_requests db))).
Definition count_deliveries (db : DB) : Z :=
  Z.of_nat (List.length (rows (aid_delivered db))).

(** ** The registration form ([PeopleTab.on_add]) *)

(** The text of the age field is looked at character by character, by
    [str.isdigit] and by [int]; both go by Unicode code points, so this
    text is the list of its code points. *)
Definition pystr : Type := list N.

(** The code points of a text whose characters lie below 256. *)
Definition codepoints (s : string) : pystr :=
  map N_of_ascii (list_ascii_of_string s).

(** The digit zero of every run of ten decimal digits (general category
    Nd) of the interpreter's character database: Unicode 14.0 for
    CPython 3.11.  Later versions add runs and take none away. *)
Definition decimal_zeros : list N :=
  [0x30; 0x660; 0x6F0; 0x7C0; 0x966; 0x9E6; 0xA66; 0xAE6; 0xB66; 0xBE6;
   0xC66; 0xCE6; 0xD66; 0xDE6; 0xE50; 0xED0; 0xF20; 0x1040; 0x1090;
   0x17E0; 0x1810; 0x1946; 0x19D0; 0x1A80; 0x1A90; 0x1B50; 0x1BB0;
   0x1C40; 0x1C50; 0xA620; 0xA8D0; 0xA900; 0xA9D0; 0xA9F0; 0xAA50;
   0xABF0; 0xFF10; 0x104A0; 0x10D30; 0x11066; 0x110F0; 0x11136; 0x111D0;
   0x112F0; 0x11450; 0x114D0; 0x11650; 0x116C0; 0x11730; 0x118E0;
   0x11950; 0x11C50; 0x11D50; 0x11DA0; 0x16A60; 0x16AC0; 0x16B50;
   0x1D7CE; 0x1D7D8; 0x1D7E2; 0x1D7EC; 0x1D7F6; 0x1E140; 0x1E2F0;
   0x1E950; 0x1FBF0]%N.

(** The code points that have a digit value but no decimal value
    (Numeric_Type=Digit): superscripts, subscripts, circled digits and
    the like, as inclusive ranges. *)
Definition other_digits : list (N * N) :=
  [(0xB2, 0xB3); (0xB9, 0xB9); (0x1369, 0x1371); (0x19DA, 0x19DA);
   (0x2070, 0x2070); (0x2074, 0x2079); (0x2080, 0x2089); (0x2460, 0x2468);
   (0x2474, 0x247C); (0x2488, 0x2490); (0x24EA, 0x24EA); (0x24F5, 0x24FD);
   (0x24FF, 0x24FF); (0x2776, 0x277E); (0x2780, 0x2788); (0x278A, 0x2792);
   (0x10A40, 0x10A43); (0x10E60, 0x10E68); (0x11052, 0x1105A);
   (0x1F100, 0x1F10A)]%N.

(** The decimal value of a character, as [int] uses it: ASCII digits,
    and the decimal digits of every other script. *)
Definition decimal_digit (c : N) : option Z :=
  match find (fun z => ((z <=? c)%N && (c <? z + 10)%N)%bool) decimal_zeros with
  | Some z => Some (Z.of_N (c - z))
  | None => None
  end.

(** [str.isdigit] on one character: a decimal digit, or one of the
    other digits. *)
Definition is_digit_char (c : N) : bool :=
  match decimal_digit c with
  | Some _ => true
  | None =>
      existsb (fun r => ((fst r <=? c)%N && (c <=? snd r)%N)%bool) other_digits
  end.

(** The truth value of a text: it is not empty. *)
Definition nonempty (s : pystr) : bool :=
  match s with
  | [] => false
  | _ :: _ => true
  end.

Definition isdigit (s : pystr) : bool :=
  (nonempty s && forallb is_digit_char s)%bool.

Fixpoint decimal_value (acc : Z) (s : pystr) : option Z :=
  match s with
  | [] => Some acc
  | c :: s' =>
      match decimal_digit c with
      | Some d => decimal_value (10 * acc + d) s'
      | None => None
      end
  end.

Inductive outcome : Type :=
| Added                               (* the handler ran to its end *)
| ErrorBox (title message : string)   (* [messagebox.showerror] and return *)
| Uncaught (e : exn).                 (* an exception left the handler *)

Section PeopleTab.

(** The interpreter's bound on the number of digits [int] converts
    ([sys.get_int_max_str_digits()], 4300 where it exists); [None] for
    an interpreter without the bound. *)
Variable int_max_str_digits : option nat.

Definition within_digit_limit (s : pystr) : bool :=
  match int_max_str_digits with
  | None => true
  | Some n => Nat.leb (List.length s) n
  end.

(** [int(s)] for the texts that reach it here: non-empty texts that
    passed [isdigit], so signs, blanks and underscores do not occur.  A
    digit without decimal value (a superscript, say) is refused. *)
Definition py_int (s : pystr) : result Z :=
  if within_digit_limit s then
    match s with
    | [] => Raise ValueError
    | _ => match decimal_value 0 s with
           | Some v => Ok v
           | None => Raise ValueError
           end
    end
  else Raise ValueError.

(** [name], [area] and [age] are the texts of the three entry fields. *)
Definition on_add (name area : string) (age : pystr) (db : DB)
  : outcome * DB :=
  if (String.eqb name "" || String.eqb area "")%bool then
    (ErrorBox "Error" "Name & Area required", db)
  else if (nonempty age && negb (isdigit age))%bool then
    (ErrorBox "Error" "Age must be number", db)
  else
    match (if nonempty age then
             match py_int age with
             | Ok v => Ok (Some v)
             | Raise e => Raise e
             end
           else Ok None) with
    | Raise e => (Uncaught e, db)
    | Ok a =>
        match add_person name area a db with
        | Ok db' => (Added, db')
        | Raise e => (Uncaught e, db)
        end
    end.

End PeopleTab.


(** ** Vocabulary of the statements *)

(** What the [PRIMARY KEY] of each table guarantees: no two rows of a
    table share an id. *)
Record unique_ids (db : DB) : Prop := mkUniqueIds {
  people_ids : NoDup (map p_id (rows (people db)));
  request_ids : NoDup (map r_id (rows (aid_requests db)));
  delivered_ids : NoDup (map d_id (rows (aid_delivered db)))
}.

(** What the [UNIQUE] constraint of [aid_types] guarantees. *)
Definition unique_aid_names (db : DB) : Prop :=
  NoDup (map t_aid_name (rows (aid_types db))).

(** The request [r] names a person that is stored. *)
Definition person_exists (db : DB) (r : AidRequest) : Prop :=
  exists p, In p (rows (people db)) /\ p_id p = r_person_id r.

(** The delivery [d] names a request that is stored and whose person is
    stored. *)
Definition request_exists (db : DB) (d : AidDelivered) : Prop :=
  exists r, In r (rows (aid_requests db)) /\ r_id r = d_request_id d /\
            person_exists db r.

(** No delivery references the request with id [rid]. *)
Definition undelivered (db : DB) (rid : Z) : Prop :=
  forall d, In d (rows (aid_delivered db)) -> d_request_id d <> rid.

(** The texts of the age field that [PeopleTab.on_add] lets through to a
    stored row, with the integer they stand for: the empty text, and a
    run of decimal digits, of any script, that [int] converts and that
    fits the column. *)
Inductive age_entry (int_max_str_digits : option nat)
  : pystr -> option Z -> Prop :=
| age_left_empty : age_entry int_max_str_digits [] None
| age_numeral (s : pystr) (v : Z) :
    s <> [] ->
    within_digit_limit int_max_str_digits s = true ->
    decimal_value 0 s = Some v ->
    v < 2 ^ 63 ->
    age_entry int_max_str_digits s (Some v).

(** The store after one more row in [people]. *)
Definition with_person (db : DB) (p : Person) : DB :=
  mkDB (mkTable (rows (people db) ++ [p]) (p_id p))
       (aid_types db) (aid_requests db) (aid_delivered db).

(** The request of the delivery [d] belongs to a person of the given
    area. *)
Definition delivered_to_area (db : DB) (area : string) (d : AidDelivered)
  : bool :=
  existsb (fun r =>
     (r_id r =? d_request_id d) &&
     existsb (fun p => (p_id p =? r_person_id r) && String.eqb (p_area p) area)
             (rows (people db)))
    (rows (aid_requests db)).

(** The number of deliveries whose request belongs to a person of the
    given area. *)
Definition delivered_in_area (db : DB) (area : string) : Z :=
  Z.of_nat (List.length
              (filter (delivered_to_area db area) (rows (aid_delivered db)))).

(** [n] calls of [init_db] in a row. *)
Definition init_db_times (n : nat) (db : DB) : DB := Nat.iter n init_db db.

(** Substring tests on texts, with the comparison of characters as a
    parameter. *)
Fixpoint prefix_by (same : ascii -> ascii -> bool) (sub text : list ascii)
  : bool :=
  match sub, text with
  | [], _ => true
  | _ :: _, [] => false
  | c :: sub', d :: text' => same c d && prefix_by same sub' text'
  end.

Fixpoint contains_by (same : ascii -> ascii -> bool) (sub text : list ascii)
  : bool :=
  prefix_by same sub text
  || match text with
     | [] => false
     | _ :: text' => contains_by same sub text'
     end.

(** [sub] occurs in [text], character for character. *)
Definition contains (text sub : string) : bool :=
  contains_by Ascii.eqb (list_ascii_of_string sub) (list_ascii_of_string text).

(** [sub] occurs in [text] up to the case of ASCII letters. *)
Definition contains_nocase (text sub : string) : bool :=
  contains_by (fun c d => Ascii.eqb (lower c) (lower d))
              (list_ascii_of_string sub) (list_ascii_of_string text).

(** The text holds neither of the two characters [LIKE] treats as
    wildcards. *)
Definition wildcard_free_chars (l : list ascii) : bool :=
  forallb (fun c => negb (Ascii.eqb c percent || Ascii.eqb c underscore)) l.

Definition wildcard_free (s : string) : bool :=
  wildcard_free_chars (list_ascii_of_string s).

(** What a joined row is made of, read off the three tables. *)
Definition joins (db : DB) (j : Joined) : Prop :=
  In (j_r j) (rows (aid_requests db))
  /\ In (j_p j) (rows (people db))
  /\ p_id (j_p j) = r_person_id (j_r j)
  /\ match j_d j with
     | None => undelivered db (r_id (j_r j))
     | Some d => In d (rows (aid_delivered db))
                 /\ d_request_id d = r_id (j_r j)
     end.

Definition total (counts : list Z) : Z := fold_right Z.add 0 counts.

Definition first_column {B C D E : Type} (row : Z * B * C * D * E) : Z :=
  fst (fst (fst (fst row))).

(** A small store used to instantiate the statements: two people, three
    requests, and two deliveries, both against request 1. *)
Definition sample_db : DB :=
  mkDB
    (mkTable [mkPerson 1 "Asha" "North" (Some 34);
              mkPerson 2 "Ravi" "South" None] 2)
    (mkTable [mkAidType 1 "Food"; mkAidType 2 "Medicine";
              mkAidType 3 "Shelter"; mkAidType 4 "Clothing";
              mkAidType 5 "Water"] 5)
    (mkTable [mkAidRequest 1 1 "Food" "2024-01-10";
              mkAidRequest 2 2 "Water" "2024-01-11";
              mkAidRequest 3 1 "Shelter" "2024-01-12"] 3)
    (mkTable [mkAidDelivered 1 1 "Rice 5kg" "2024-01-12";
              mkAidDelivered 2 1 "Rice 5kg" "2024-01-13"] 2).

(** The areas that the join of [delivered_summary_by_area] finds for one
    delivery: the area of the person of its request. *)
Definition areas_of (db : DB) (d : AidDelivered) : list string :=
  flat_map (fun r => map p_area (persons_of db (r_person_id r)))
           (requests_of db (d_request_id d)).

(** Running one operation after another. *)
Definition and_then {A B : Type} (r : result A) (f : A -> result B)
  : result B :=
  match r with
  | Ok a => f a
  | Raise e => Raise e
  end.

(** The store after registering one person, filing the same request for
    that person twice, and recording a delivery of the first of the two
    under the date text PENDING. *)
Definition pending_dated_db : result DB :=
  and_then (add_person "Asha" "North" None empty_db) (fun db1 =>
  and_then (add_request 1 "Food" "2024-01-10" db1) (fun db2 =>
  and_then (add_request 1 "Food" "2024-01-10" db2) (fun db3 =>
  mark_delivered 1 "Rice" "PENDING" db3))).

(** A store with one person, one request with one delivery, and one
    more delivery against a request id that was never given out. *)
Definition stray_db : DB :=
  mkDB
    (mkTable [mkPerson 1 "Asha" "North" (Some 34)] 1)
    empty_table
    (mkTable [mkAidRequest 1 1 "Food" "2024-01-10"] 1)
    (mkTable [mkAidDelivered 1 1 "Rice 5kg" "2024-01-12";
              mkAidDelivered 2 7 "Tent" "2024-01-13"] 2).

(** ** The CSV export *)

Module Csv.

(** The dialect [excel], the default of [csv.writer] and [csv.reader]:
    delimiter [,], quote character, doubled quotes, no escape character,
    line terminator CR LF, minimal quoting, not strict. *)
Definition delimiter : ascii := ","%char.
Definition quotechar : ascii := ascii_of_nat 34.
Definition CR : ascii := ascii_of_nat 13.
Definition LF : ascii := ascii_of_nat 10.
Definition lineterminator : list ascii := [CR; LF].

(** *** [csv.writer] *)

(** The characters that make [join_append_data] quote a field. *)
Definition special (c : ascii) : bool :=
  Ascii.eqb c delimiter || Ascii.eqb c quotechar
  || existsb (Ascii.eqb c) lineterminator.

(** [join_append_data]: the characters of the field as they are copied
    to the record, a quote character doubled, and whether a character
    asked for quotes around the field. *)
Fixpoint join_append_data (field : list ascii) : list ascii * bool :=
  match field with
  | [] => ([], false)
  | c :: rest =>
      let (copied, quoted) := join_append_data rest in
      if special c then
        ((if Ascii.eqb c quotechar then [quotechar; c] else [c]) ++ copied,
         true)
      else (c :: copied, quoted)
  end.

(** [join_append]: the delimiter unless the field is the first of its
    record, then the field, between quotes if asked for. *)
Definition join_append (num_fields : nat) (field : list ascii) (quoted : bool)
  : list ascii :=
  let (copied, wanted) := join_append_data field in
  (if Nat.eqb num_fields 0 then [] else [delimiter])
  ++ (if quoted || wanted then quotechar :: copied ++ [quotechar]
      else copied).

Fixpoint join_all (num_fields : nat) (row : list (list ascii)) : list ascii :=
  match row with
  | [] => []
  | field :: rest =>
      join_append num_fields field false ++ join_all (S num_fields) rest
  end.

(** [writerow]: a record that came out empty although it has a field
    (one empty field) is written again, quoted. *)
Definition writerow (row : list (list ascii)) : list ascii :=
  let rec := join_all 0 row in
  (if Nat.ltb 0 (List.length row) && Nat.eqb (List.length rec) 0
   then join_append 0 [] true
   else rec)
  ++ lineterminator.

Definition writerows (data : list (list (list ascii))) : list ascii :=
  flat_map writerow data.

(** *** The file as a sequence of lines *)

(** Iterating over a text file opened with [newline='']: a line ends
    after LF, after CR LF, and after a CR that no LF follows, and keeps
    its ending. *)
Fixpoint splitlines (text : list ascii) : list (list ascii) :=
  match text with
  | [] => []
  | c :: rest =>
      if Ascii.eqb c LF then [c] :: splitlines rest
      else if Ascii.eqb c CR then
        match rest with
        | d :: rest' =>
            if Ascii.eqb d LF then [c; d] :: splitlines rest'
            else [c] :: splitlines rest
        | [] => [[c]]
        end
      else
        match splitlines rest with
        | [] => [[c]]
        | line :: more => (c :: line) :: more
        end
  end.

(** *** [csv.reader] *)

(** The states of the parser that the dialect can reach (it has no
    escape character). *)
Inductive ParserState : Type :=
| START_RECORD
| START_FIELD
| IN_FIELD
| IN_QUOTED_FIELD
| QUOTE_IN_QUOTED_FIELD
| EAT_CRNL.

(** What [parse_process_char] is given: a character of the line, or the
    mark for the end of the line. *)
Inductive input : Type :=
| Char (c : ascii)
| EOL.

Record Reader : Type := mkReader {
  state : ParserState;
  field : list ascii;              (* the field being collected *)
  fields : list (list ascii)       (* the fields of the record so far *)
}.

Definition parse_reset : Reader := mkReader START_RECORD [] [].

Definition parse_save_field (r : Reader) : Reader :=
  mkReader (state r) [] (fields r ++ [field r]).

Definition parse_add_char (r : Reader) (c : ascii) : Reader :=
  mkReader (state r) (field r ++ [c]) (fields r).

Definition set_state (r : Reader) (s : ParserState) : Reader :=
  mkReader s (field r) (fields r).

Definition newline (c : ascii) : bool := Ascii.eqb c LF || Ascii.eqb c CR.

Definition in_state (r : Reader) (s : ParserState) : bool :=
  match state r, s with
  | START_RECORD, START_RECORD
  | START_FIELD, START_FIELD
  | IN_FIELD, IN_FIELD
  | IN_QUOTED_FIELD, IN_QUOTED_FIELD
  | QUOTE_IN_QUOTED_FIELD, QUOTE_IN_QUOTED_FIELD
  | EAT_CRNL, EAT_CRNL => true
  | _, _ => false
  end.

(** The case [START_FIELD], which [START_RECORD] falls through to. *)
Definition start_field (r : Reader) (i : input) : Reader :=
  match i with
  | EOL => set_state (parse_save_field r) START_RECORD
  | Char c =>
      if newline c then set_state (parse_save_field r) EAT_CRNL
      else if Ascii.eqb c quotechar then set_state r IN_QUOTED_FIELD
      else if Ascii.eqb c delimiter then parse_save_field r
      else set_state (parse_add_char r c) IN_FIELD
  end.

Definition parse_process_char (r : Reader) (i : input) : result Reader :=
  match state r with
  | START_RECORD =>
      match i with
      | EOL => Ok r
      | Char c =>
          if newline c then Ok (set_state r EAT_CRNL)
          else Ok (start_field (set_state r START_FIELD) i)
      end
  | START_FIELD => Ok (start_field r i)
  | IN_FIELD =>
      match i with
      | EOL => Ok (set_state (parse_save_field r) START_RECORD)
      | Char c =>
          if newline c then Ok (set_state (parse_save_field r) EAT_CRNL)
          else if Ascii.eqb c delimiter
               then Ok (set_state (parse_save_field r) START_FIELD)
          else Ok (parse_add_char r c)
      end
  | IN_QUOTED_FIELD =>
      match i with
      | EOL => Ok r
      | Char c =>
          if Ascii.eqb c quotechar then Ok (set_state r QUOTE_IN_QUOTED_FIELD)
          else Ok (parse_add_char r c)
      end
  | QUOTE_IN_QUOTED_FIELD =>
      match i with
      | EOL => Ok (set_state (parse_save_field r) START_RECORD)
      | Char c =>
          if Ascii.eqb c quotechar
          then Ok (set_state (parse_add_char r c) IN_QUOTED_FIELD)
          else if Ascii.eqb c delimiter
               then Ok (set_state (parse_save_field r) START_FIELD)
          else if newline c then Ok (set_state (parse_save_field r) EAT_CRNL)
          else Ok (set_state (parse_add_char r c) IN_FIELD)
      end
  | EAT_CRNL =>
      match i with
      | EOL => Ok (set_state r START_RECORD)
      | Char c => if newline c then Ok r else Raise CsvError
      end
  end.

(** The characters of one line, then the end-of-line mark. *)
Fixpoint parse_line (r : Reader) (line : list ascii) : result Reader :=
  match line with
  | [] => parse_process_char r EOL
  | c :: rest =>
      match parse_process_char r (Char c) with
      | Ok r' => parse_line r' rest
      | Raise e => Raise e
      end
  end.

Definition emit {A : Type} (a : A) (more : result (list A))
  : result (list A) :=
  match more with
  | Ok l => Ok (a :: l)
  | Raise e => Raise e
  end.

(** [list(reader)]: each record takes lines until the parser is back at
    [START_RECORD]; when the lines run out inside a record, what has been
    collected is the last record. *)
Fixpoint read_records (r : Reader) (lines : list (list ascii))
  : result (list (list (list ascii))) :=
  match lines with
  | [] =>
      if negb (Nat.eqb (List.length (field r)) 0) || in_state r IN_QUOTED_FIELD
      then Ok [fields (parse_save_field r)]
      else Ok []
  | line :: more =>
      match parse_line r line with
      | Raise e => Raise e
      | Ok r' =>
          if in_state r' START_RECORD
          then emit (fields r') (read_records parse_reset more)
          else read_records r' more
      end
  end.

(** The same reader, fed one input at a time. *)
Definition feed (lines : list (list ascii)) : list input :=
  flat_map (fun line => map Char line ++ [EOL]) lines.

Fixpoint run (r : Reader) (inputs : list input)
  : result (list (list (list ascii))) :=
  match inputs with
  | [] =>
      if negb (Nat.eqb (List.length (field r)) 0) || in_state r IN_QUOTED_FIELD
      then Ok [fields (parse_save_field r)]
      else Ok []
  | i :: more =>
      match parse_process_char r i with
      | Raise e => Raise e
      | Ok r' =>
          match i with
          | EOL =>
              if in_state r' START_RECORD
              then emit (fields r') (run parse_reset more)
              else run r' more
          | Char _ => run r' more
          end
      end
  end.

(** A field as it stands in a record: between quotes, or as it is. *)
Definition quoted_field (f : list ascii) : list ascii :=
  quotechar :: fst (join_append_data f) ++ [quotechar].

Definition written_field (f : list ascii) : list ascii :=
  if snd (join_append_data f) then quoted_field f else f.

(** The parser stands before a field: at the start of a record or right
    after a delimiter. *)
Definition before_field (s : ParserState) : Prop :=
  s = START_RECORD \/ s = START_FIELD.

End Csv.

(** [csv.reader] over the text of a file, the cells as texts. *)
Definition csv_reader (text : string) : result (list (list string)) :=
  match Csv.read_records Csv.parse_reset
          (Csv.splitlines (list_ascii_of_string text)) with
  | Ok records => Ok (map (map string_of_list_ascii) records)
  | Raise e => Raise e
  end.

(** [export_to_csv(data, filename)]: the text that ends up in the file. *)
Definition export_to_csv (data : list (list string)) : string :=
  string_of_list_ascii (Csv.writerows (map (map list_ascii_of_string) data)).

(** ** The rest of the data layer and of the forms *)

(** [ORDER BY key] on a text column, ascending, byte for byte (for code
    points below 256 the order of the codes), as a stable insertion
    sort. *)
Fixpoint insert_text {A : Type} (key : A -> string) (x : A) (l : list A)
  : list A :=
  match l with
  | [] => [x]
  | y :: l' =>
      if String.leb (key x) (key y) then x :: l
      else y :: insert_text key x l'
  end.

Definition order_by_text {A : Type} (key : A -> string) (l : list A)
  : list A :=
  fold_right (insert_text key) [] l.

(** [SELECT aid_name FROM aid_types ORDER BY aid_name], first column. *)
Definition list_aid_types (db : DB) : list string :=
  map t_aid_name (order_by_text t_aid_name (rows (aid_types db))).

(** [str(n)] for an integer. *)
Definition py_str (n : Z) : string :=
  DecimalString.NilZero.string_of_int (Z.to_int n).

(** [s.split(sep)[0]]: the text before the first occurrence of [sep], the
    whole text when [sep] does not occur ([sep] is not empty here). *)
Fixpoint split_head (sep : string) (s : string) : string :=
  match s with
  | EmptyString => EmptyString
  | String c s' =>
      if String.prefix sep s then EmptyString
      else String c (split_head sep s')
  end.

(** The entries of the person list of [RequestTab.refresh_people]:
    [f"{p[0]} - {p[1]} ({p[2]})"] for each row of [list_people]. *)
Definition person_label (p : Z * string * string * value) : string :=
  let '(id, name, area, _) := p in
  (py_str id ++ " - " ++ name ++ " (" ++ area ++ ")")%string.

Definition refresh_people (db : DB) : list string :=
  map person_label (list_people db).

(** The entries of the request list of [DeliverTab.refresh]:
    [f"{r[0]} - {r[1]}"] for each row of [list_pending_requests]. *)
Definition request_label (r : Z * string * string * string * string)
  : string :=
  let '(id, name, _, _, _) := r in
  (py_str id ++ " - " ++ name)%string.

Definition deliver_refresh (db : DB) : list string :=
  map request_label (list_pending_requests db).

(** [refresh_tree]: the rows that were shown are deleted and the given
    rows are shown in their order, each tagged [even] or [odd] after its
    position. *)
Definition stripe (i : nat) : string :=
  if Nat.eqb (Nat.modulo i 2) 0 then "even" else "odd".

Fixpoint enumerate_from {A : Type} (i : nat) (l : list A) : list (nat * A) :=
  match l with
  | [] => []
  | x :: l' => (i, x) :: enumerate_from (S i) l'
  end.

Definition refresh_tree {A : Type} (shown : list (A * list string))
    (rows : list A) : list (A * list string) :=
  map (fun ir => (snd ir, [stripe (fst ir)])) (enumerate_from 0 rows).

(** [SearchTab.refresh]: the rows of [search], each tagged [pending] or
    [delivered] after its last column, and [even] or [odd]. *)
Definition search_tag (r : string * string * string * string * string)
  : string :=
  if String.eqb (snd r) "PENDING" then "pending" else "delivered".

Definition search_refresh (area status : string) (db : DB)
  : list ((string * string * string * string * string) * list string) :=
  map (fun ir => (snd ir, [search_tag (snd ir); stripe (fst ir)]))
      (enumerate_from 0 (search area status db)).

(** *** Stores that the operations build *)

(** One operation of the program on the store. *)
Inductive step : DB -> DB -> Prop :=
| step_init_db (db : DB) : step db (init_db db)
| step_add_person (name area : string) (age : option Z) (db db' : DB) :
    add_person name area age db = Ok db' -> step db db'
| step_add_request (pid : Z) (aid_type req_date : string) (db db' : DB) :
    add_request pid aid_type req_date db = Ok db' -> step db db'
| step_mark_delivered (rid : Z) (item d_date : string) (db db' : DB) :
    mark_delivered rid item d_date db = Ok db' -> step db db'
| step_on_add (lim : option nat) (name area : string) (age : pystr)
    (db : DB) :
    step db (snd (on_add lim name area age db)).

(** The stores reached from the new, empty one. *)
Inductive reachable : DB -> Prop :=
| reachable_empty : reachable empty_db
| reachable_step (db db' : DB) : reachable db -> step db db' -> reachable db'.

(** The ids of a table go up with the rows, start at 1 and stay at or
    below the table's sequence value. *)
Definition ascending {R : Type} (rid : R -> Z) (t : Table R) : Prop :=
  StronglySorted Z.lt (map rid (rows t))
  /\ Forall (fun i => 1 <= i <= seq t) (map rid (rows t)).

Record well_formed (db : DB) : Prop := mkWellFormed {
  wf_people : ascending p_id (people db);
  wf_aid_types : ascending t_id (aid_types db);
  wf_aid_requests : ascending r_id (aid_requests db);
  wf_aid_delivered : ascending d_id (aid_delivered db);
  wf_aid_names : unique_aid_names db
}.

(** Every delivery references the id of a stored request. *)
Definition deliveries_referenced (db : DB) : Prop :=
  forall d, In d (rows (aid_delivered db)) ->
            In (d_request_id d) (map r_id (rows (aid_requests db))).

(** *** Shapes of texts and lines *)

(** A line as the file iterator hands it out: no line break inside, and
    at most one line ending, at the end. *)
Definition line_ending (e : list ascii) : Prop :=
  e = [] \/ e = [Csv.LF] \/ e = [Csv.CR] \/ e = [Csv.CR; Csv.LF].

Definition one_line (line : list ascii) : Prop :=
  exists body e,
    line = body ++ e /\ Forall (fun c => Csv.newline c = false) body
    /\ line_ending e.

(** The cells joined by the delimiter. *)
Fixpoint join_cells (cells : list (list ascii)) : list ascii :=
  match cells with
  | [] => []
  | [c] => c
  | c :: rest => c ++ Csv.delimiter :: join_cells rest
  end.

(** A row of [list_people] for a stored person. *)
Definition person_row (p : Person) : Z * string * string * value :=
  (p_id p, p_name p, p_area p,
   match p_age p with Some a => Integer a | None => Text "" end).

(** The text has no blank. *)
Definition no_blank (s : string) : Prop :=
  forall c, In c (list_ascii_of_string s) -> c <> " "%char.
(** * Properties *)

(** ** The engine: ordering *)

Section OrderBy.

Context {A : Type} (key : A -> Z).

Lemma insert_desc_perm (x : A) (l : list A) :
  Permutation (insert_desc key x l) (x :: l).
Proof.
  induction l as [| y l IH]; simpl.
  - apply Permutation_refl.
  - destruct (key x <? key y).
    + apply perm_trans with (y :: x :: l).
      * apply perm_skip, IH.
      * apply perm_swap.
    + apply Permutation_refl.
Qed.

Lemma order_by_desc_perm (l : list A) : Permutation (order_by_desc key l) l.
Proof.
  induction l as [| x l IH]; simpl.
  - apply perm_nil.
  - apply perm_trans with (x :: order_by_desc key l).
    + apply insert_desc_perm.
    + apply perm_skip, IH.
Qed.

Lemma order_by_desc_In (x : A) (l : list A) :
  In x (order_by_desc key l) <-> In x l.
Proof.
  split; apply Permutation_in.
  - apply order_by_desc_perm.
  - apply Permutation_sym, order_by_desc_perm.
Qed.

Lemma insert_desc_sorted (x : A) (l : list A) :
  StronglySorted (key_ge key) l -> StronglySorted (key_ge key) (insert_desc key x l).
Proof.
  induction 1 as [| y l Hs IH Hall]; simpl.
  - constructor; constructor.
  - destruct (key x <? key y) eqn:E.
    + constructor; [exact IH |].
      apply Forall_forall. intros z Hz.
      apply (Permutation_in _ (insert_desc_perm x l)) in Hz.
      destruct Hz as [<- | Hz].
      * unfold key_ge. apply Z.ltb_lt in E. lia.
      * rewrite Forall_forall in Hall. apply Hall, Hz.
    + apply Z.ltb_ge in E.
      constructor; [constructor; assumption |].
      constructor; [exact E |].
      rewrite Forall_forall in Hall |- *. intros z Hz.
      specialize (Hall z Hz). unfold key_ge in *. lia.
Qed.

Lemma order_by_desc_sorted (l : list A) :
  StronglySorted (key_ge key) (order_by_desc key l).
Proof.
  induction l as [| x l IH]; simpl.
  - constructor.
  - apply insert_desc_sorted, IH.
Qed.

(** Keys of the ordered rows, as a list of integers that never goes up. *)
Lemma order_by_desc_keys_sorted (l : list A) :
  StronglySorted Z.ge (map key (order_by_desc key l)).
Proof.
  generalize (order_by_desc_sorted l).
  induction 1 as [| y l' Hs IH Hall]; simpl; constructor.
  - exact IH.
  - rewrite Forall_forall in Hall |- *. intros z Hz.
    apply in_map_iff in Hz. destruct Hz as (w & <- & Hw).
    specialize (Hall w Hw). unfold key_ge in Hall. lia.
Qed.

(** With pairwise distinct keys the order is strict. *)
Lemma order_by_desc_keys_strict (l : list A) :
  NoDup (map key l) -> StronglySorted Z.gt (map key (order_by_desc key l)).
Proof.
  intros Hnd.
  assert (Hnd' : NoDup (map key (order_by_desc key l))).
  { apply Permutation_NoDup with (map key l); [| exact Hnd].
    apply Permutation_map, Permutation_sym, order_by_desc_perm. }
  generalize (order_by_desc_keys_sorted l). revert Hnd'.
  generalize (map key (order_by_desc key l)) as ks.
  induction ks as [| k ks IH]; intros Hn Hs; constructor.
  - apply IH; [inversion Hn | inversion Hs]; assumption.
  - inversion Hn as [| ? ? Hnotin _]; inversion Hs as [| ? ? _ Hall]; subst.
    rewrite Forall_forall in Hall |- *. intros z Hz.
    specialize (Hall z Hz).
    assert (z <> k) by (intros ->; contradiction). lia.
Qed.

End OrderBy.

(** ** The engine: rowids *)

Lemma max_rowid_bound (ids : list Z) (i : Z) : In i ids -> i <= max_rowid ids.
Proof.
  induction ids as [| j ids IH]; simpl; [contradiction |].
  intros [-> | H]; [lia |]. specialize (IH H). lia.
Qed.

Lemma new_rowid_above {R : Type} (rid : R -> Z) (t : Table R) (r : R) :
  In r (rows t) -> rid r < new_rowid rid t.
Proof.
  intros H. unfold new_rowid.
  assert (rid r <= max_rowid (map rid (rows t))).
  { apply max_rowid_bound, in_map, H. }
  lia.
Qed.

Lemma new_rowid_fresh {R : Type} (rid : R -> Z) (t : Table R) :
  ~ In (new_rowid rid t) (map rid (rows t)).
Proof.
  intros H. apply in_map_iff in H. destruct H as (r & Heq & Hr).
  apply (new_rowid_above rid) in Hr. lia.
Qed.

Lemma insert_keeps_NoDup {R : Type} (rid : R -> Z) (mk : Z -> R) (t : Table R) :
  (forall v, rid (mk v) = v) ->
  NoDup (map rid (rows t)) -> NoDup (map rid (rows (insert rid mk t))).
Proof.
  intros Hmk Hnd. unfold insert. simpl. rewrite map_app. simpl. rewrite Hmk.
  apply Permutation_NoDup
    with (new_rowid rid t :: map rid (rows t)).
  - apply Permutation_cons_append.
  - constructor; [apply new_rowid_fresh | exact Hnd].
Qed.

(** ** Unique ids in every store the operations build *)

Lemma empty_db_unique_ids : unique_ids empty_db.
Proof. constructor; constructor. Qed.

Lemma add_person_unique_ids (name area : string) (age : option Z)
    (db db' : DB) :
  unique_ids db -> add_person name area age db = Ok db' -> unique_ids db'.
Proof.
  intros [Hp Hr Hd]. unfold add_person.
  destruct (bind_optional_int (age_or_none age)); [| discriminate].
  intros [= <-].
  constructor; cbn [people aid_requests aid_delivered]; try assumption.
  apply insert_keeps_NoDup; [reflexivity | assumption].
Qed.

Lemma add_request_unique_ids (pid : Z) (aid_type req_date : string)
    (db db' : DB) :
  unique_ids db -> add_request pid aid_type req_date db = Ok db' ->
  unique_ids db'.
Proof.
  intros [Hp Hr Hd]. unfold add_request.
  destruct (bind_int pid); [| discriminate].
  intros [= <-].
  constructor; cbn [people aid_requests aid_delivered]; try assumption.
  apply insert_keeps_NoDup; [reflexivity | assumption].
Qed.

Lemma mark_delivered_unique_ids (rid : Z) (item d_date : string)
    (db db' : DB) :
  unique_ids db -> mark_delivered rid item d_date db = Ok db' ->
  unique_ids db'.
Proof.
  intros [Hp Hr Hd]. unfold mark_delivered.
  destruct (bind_int rid); [| discriminate].
  intros [= <-].
  constructor; cbn [people aid_requests aid_delivered]; try assumption.
  apply insert_keeps_NoDup; [reflexivity | assumption].
Qed.

Lemma init_db_unique_ids (db : DB) : unique_ids db -> unique_ids (init_db db).
Proof. intros [Hp Hr Hd]. constructor; assumption. Qed.

(** ** Registration *)

Lemma decimal_digit_is_digit (c : N) (d : Z) :
  decimal_digit c = Some d -> is_digit_char c = true /\ 0 <= d <= 9.
Proof.
  unfold is_digit_char, decimal_digit.
  destruct (find (fun z => ((z <=? c)%N && (c <? z + 10)%N)%bool) decimal_zeros)
    as [z |] eqn:E; [| discriminate].
  intros [= <-]. split; [reflexivity |].
  apply find_some in E. destruct E as [_ E].
  apply andb_true_iff in E. destruct E as [E1 E2].
  apply N.leb_le in E1. apply N.ltb_lt in E2. lia.
Qed.

Lemma decimal_value_digits (s : pystr) (acc v : Z) :
  0 <= acc -> decimal_value acc s = Some v ->
  forallb is_digit_char s = true /\ 0 <= v.
Proof.
  revert acc.
  induction s as [| c s IH]; intros acc Hacc H;
    cbn [decimal_value forallb] in *.
  - injection H as <-. split; [reflexivity | assumption].
  - destruct (decimal_digit c) as [d |] eqn:E; [| discriminate].
    apply decimal_digit_is_digit in E. destruct E as [-> Hd].
    apply IH in H; [| lia]. exact H.
Qed.

Lemma nonempty_true (s : pystr) : nonempty s = true <-> s <> [].
Proof. destruct s; simpl; split; congruence. Qed.

Lemma add_person_inserts (name area : string) (a : option Z) (db : DB) :
  (forall v, age_or_none a = Some v -> - 2 ^ 63 <= v < 2 ^ 63) ->
  exists v, ~ In v (map p_id (rows (people db))) /\
    add_person name area a db
    = Ok (with_person db (mkPerson v name area (age_or_none a))).
Proof.
  intros Hfit. exists (new_rowid p_id (people db)). split.
  - apply new_rowid_fresh.
  - unfold add_person, with_person, insert. simpl.
    destruct (age_or_none a) as [v |] eqn:E; simpl; [| reflexivity].
    unfold bind_int, fits_int64.
    specialize (Hfit v eq_refl).
    replace (- 2 ^ 63 <=? v) with true by (symmetry; apply Z.leb_le; lia).
    replace (v <? 2 ^ 63) with true by (symmetry; apply Z.ltb_lt; lia).
    reflexivity.
Qed.

Lemma age_or_none_range (a : option Z) (v : Z) :
  age_or_none a = Some v -> a = Some v /\ v <> 0.
Proof.
  destruct a as [w |]; simpl; [| discriminate].
  destruct (w =? 0) eqn:E; [discriminate |].
  intros [= <-]. apply Z.eqb_neq in E. auto.
Qed.

Lemma string_eqb_empty (s : string) : String.eqb s "" = false <-> s <> "".
Proof. apply String.eqb_neq. Qed.

Lemma on_add_unchanged_unless_added (lim : option nat)
    (name area : string) (age : pystr) (db : DB) :
  fst (on_add lim name area age db) <> Added ->
  snd (on_add lim name area age db) = db.
Proof.
  unfold on_add.
  destruct (String.eqb name "" || String.eqb area "")%bool; [reflexivity |].
  destruct (nonempty age && negb (isdigit age))%bool; [reflexivity |].
  destruct (if nonempty age then
              match py_int lim age with
              | Ok v => Ok (Some v)
              | Raise e => Raise e
              end
            else Ok None) as [a | e]; [| reflexivity].
  destruct (add_person name area a db); simpl; [congruence | reflexivity].
Qed.

Lemma on_add_accepts (lim : option nat) (name area : string) (age : pystr)
    (a : option Z) (db : DB) :
  name <> "" -> area <> "" -> age_entry lim age a ->
  exists v, ~ In v (map p_id (rows (people db))) /\
    on_add lim name area age db
    = (Added, with_person db (mkPerson v name area (age_or_none a))).
Proof.
  intros Hn Ha He. unfold on_add.
  apply string_eqb_empty in Hn, Ha. rewrite Hn, Ha. cbn [orb].
  destruct He as [| s v Hs Hlim Hval Hv].
  - cbn -[add_person].
    destruct (add_person_inserts name area None db) as (v & Hfresh & ->);
      [discriminate |].
    exists v. auto.
  - pose proof (decimal_value_digits s 0 v (Z.le_refl 0) Hval) as [Hdig Hpos].
    apply nonempty_true in Hs. unfold isdigit. rewrite Hs, Hdig.
    cbn [negb andb].
    unfold py_int. rewrite Hlim, Hval.
    destruct (add_person_inserts name area (Some v) db) as (w & Hfresh & Hadd).
    + intros u Hu. apply age_or_none_range in Hu. destruct Hu as [[= <-] _]. lia.
    + exists w. split; [exact Hfresh |].
      destruct s as [| c s]; [discriminate |]. rewrite Hadd. reflexivity.
Qed.

(** The handler adds no row for any other age text. *)
Lemma on_add_rejects (lim : option nat) (name area : string) (age : pystr)
    (db : DB) :
  (forall a, ~ age_entry lim age a) ->
  fst (on_add lim name area age db) <> Added.
Proof.
  intros Hno. unfold on_add.
  destruct (String.eqb name "" || String.eqb area "")%bool; [discriminate |].
  destruct age as [| c s]; [destruct (Hno None); constructor |].
  cbn [nonempty andb].
  destruct (isdigit (c :: s)); cbn [negb]; [| discriminate].
  unfold py_int.
  destruct (within_digit_limit lim (c :: s)) eqn:Elim; [| discriminate].
  destruct (decimal_value 0 (c :: s)) as [v |] eqn:Eval; [| discriminate].
  unfold add_person. simpl age_or_none.
  destruct (v =? 0) eqn:E0.
  - apply Z.eqb_eq in E0. subst v.
    destruct (Hno (Some 0)). constructor; auto; [discriminate | lia].
  - simpl. unfold bind_int, fits_int64.
    destruct (v <? 2 ^ 63) eqn:Eb.
    + apply Z.ltb_lt in Eb.
      destruct (Hno (Some v)). constructor; auto. discriminate.
    + rewrite andb_false_r. discriminate.
Qed.

(** C1 (as amended).  The handler [PeopleTab.on_add] is the guard of
    [add_person].  With an empty name or an empty area it shows the error
    box "Name & Area required" and leaves the store as it was.  With a
    non-empty name and area and a non-empty age text that [str.isdigit]
    refuses (a character of it is no digit of any script) it shows "Age
    must be number" and leaves the store as it was.  With a non-empty
    name, a non-empty area and an age text that is empty or a run of
    decimal digits, of any script, within the interpreter's digit limit
    and of a value below [2^63], it appends exactly one row to [people],
    under an id no stored person has, and changes no other table.  The
    texts of digits that are none of these are not spoken of. *)
Theorem on_add_registers_or_rejects (lim : option nat)
    (name area : string) (age : pystr) (db : DB) :
  (name = "" \/ area = "" ->
   on_add lim name area age db = (ErrorBox "Error" "Name & Area required", db))
  /\
  (name <> "" -> area <> "" -> age <> [] -> isdigit age = false ->
   on_add lim name area age db = (ErrorBox "Error" "Age must be number", db))
  /\
  (forall a, name <> "" -> area <> "" -> age_entry lim age a ->
   exists v, ~ In v (map p_id (rows (people db))) /\
     on_add lim name area age db
     = (Added, with_person db (mkPerson v name area (age_or_none a)))).
Proof.
  split; [| split].
  - intros H. unfold on_add.
    replace (String.eqb name "" || String.eqb area "")%bool with true;
      [reflexivity |].
    symmetry. apply orb_true_iff.
    destruct H as [-> | ->]; [left | right]; reflexivity.
  - intros Hn Ha Hage Hd. unfold on_add.
    apply string_eqb_empty in Hn, Ha. apply nonempty_true in Hage.
    rewrite Hn, Ha, Hage, Hd. reflexivity.
  - intros a. apply on_add_accepts.
Qed.

(** The age typed in Bengali digits, zero one two, is stored as 12. *)
Lemma on_add_registers_or_rejects_witness :
  exists v, ~ In v (map p_id (rows (people empty_db))) /\
    on_add (Some 4300%nat) "Asha" "North" [0x9E6; 0x9E7; 0x9E8]%N empty_db
    = (Added, with_person empty_db (mkPerson v "Asha" "North" (Some 12))).
Proof.
  destruct (on_add_registers_or_rejects (Some 4300%nat) "Asha" "North"
              [0x9E6; 0x9E7; 0x9E8]%N empty_db) as (_ & _ & H).
  apply (H (Some 12)).
  - discriminate.
  - discriminate.
  - apply age_numeral; [discriminate | reflexivity | reflexivity | reflexivity].
Defined.

(** C1 (as stated) fails: [add_person] itself stores a person with an
    empty name, and one with a negative age. *)
Lemma add_person_not_validated :
  (exists db', add_person "" "North" None empty_db = Ok db' /\
               rows (people db') = [mkPerson 1 "" "North" None])
  /\ (exists db', add_person "Asha" "North" (Some (-5)) empty_db = Ok db' /\
                  rows (people db') = [mkPerson 1 "Asha" "North" (Some (-5))]).
Proof.
  split; eexists; split; reflexivity.
Qed.

(** Two age texts that the check of the handler lets through and that
    end it with an exception: a superscript two, which is a digit to
    [str.isdigit] and none to [int], and the numeral of 2^63, which the
    INTEGER column cannot hold. *)
Lemma on_add_age_not_converted :
  on_add (Some 4300%nat) "Asha" "North" [0xB2]%N empty_db
  = (Uncaught ValueError, empty_db)
  /\ on_add (Some 4300%nat) "Asha" "North"
            (codepoints "9223372036854775808") empty_db
     = (Uncaught OverflowError, empty_db).
Proof. split; reflexivity. Qed.

(** C10.  [add_person] with the age 0 stores the same row as with no age
    at all: its age is NULL, and [list_people] shows that person with the
    empty text in the age column. *)
Theorem add_person_age_zero_is_null (name area : string) (db : DB) :
  exists v,
    add_person name area (Some 0) db
    = Ok (with_person db (mkPerson v name area None))
    /\ add_person name area None db = add_person name area (Some 0) db
    /\ In (v, name, area, Text "")
          (list_people (with_person db (mkPerson v name area None))).
Proof.
  exists (new_rowid p_id (people db)). split; [reflexivity |].
  split; [reflexivity |].
  unfold list_people. apply in_map_iff.
  exists (mkPerson (new_rowid p_id (people db)) name area None).
  split; [reflexivity |].
  apply order_by_desc_In. simpl. apply in_or_app. right. left. reflexivity.
Qed.

(** ** References that are not checked *)

(** C2 (the code at the failing input).  On the empty store,
    [add_request] for person 99 and [mark_delivered] for request 99 both
    succeed and each stores one row, although no person and no request
    has the id 99. *)
Theorem dangling_references_are_stored :
  (exists db', add_request 99 "Food" "2024-01-10" empty_db = Ok db' /\
               rows (aid_requests db') = [mkAidRequest 1 99 "Food" "2024-01-10"] /\
               persons_of db' 99 = [])
  /\
  (exists db', mark_delivered 99 "Rice 5kg" "2024-01-12" empty_db = Ok db' /\
               rows (aid_delivered db')
               = [mkAidDelivered 1 99 "Rice 5kg" "2024-01-12"] /\
               requests_of db' 99 = []).
Proof.
  split; eexists; repeat split; reflexivity.
Qed.

(** ** Initialisation *)

Lemma conflicts_iff_named (name : string) (l : list AidType) :
  existsb (fun row => String.eqb (t_aid_name row) name) l = true
  <-> In name (map t_aid_name l).
Proof.
  rewrite existsb_exists, in_map_iff.
  split; intros (row & H1 & H2); exists row.
  - apply String.eqb_eq in H2. auto.
  - split; [assumption | apply String.eqb_eq; assumption].
Qed.

Lemma insert_aid_type_present (name : string) (t : Table AidType) :
  In name (map t_aid_name (rows t)) ->
  rows (insert_aid_type name t) = rows t.
Proof.
  intros H. apply conflicts_iff_named in H.
  unfold insert_aid_type, insert_or_ignore. rewrite H. reflexivity.
Qed.

Lemma insert_aid_type_absent (name : string) (t : Table AidType) :
  ~ In name (map t_aid_name (rows t)) ->
  rows (insert_aid_type name t)
  = rows t ++ [mkAidType (new_rowid t_id t) name].
Proof.
  intros H. unfold insert_aid_type, insert_or_ignore.
  destruct (existsb _ (rows t)) eqn:E; [| reflexivity].
  apply conflicts_iff_named in E. contradiction.
Qed.

Lemma insert_aid_type_names (name s : string) (t : Table AidType) :
  In s (map t_aid_name (rows (insert_aid_type name t)))
  <-> s = name \/ In s (map t_aid_name (rows t)).
Proof.
  destruct (in_dec string_dec name (map t_aid_name (rows t))) as [Hin | Hout].
  - rewrite insert_aid_type_present by assumption.
    split; [auto | intros [-> | H]; assumption].
  - rewrite insert_aid_type_absent by assumption.
    rewrite map_app, in_app_iff. simpl. intuition congruence.
Qed.

Lemma insert_aid_type_unique (name : string) (t : Table AidType) :
  NoDup (map t_aid_name (rows t)) ->
  NoDup (map t_aid_name (rows (insert_aid_type name t))).
Proof.
  intros Hnd.
  destruct (in_dec string_dec name (map t_aid_name (rows t))) as [Hin | Hout].
  - rewrite insert_aid_type_present; assumption.
  - rewrite insert_aid_type_absent by assumption. rewrite map_app. simpl.
    apply Permutation_NoDup with (name :: map t_aid_name (rows t)).
    + apply Permutation_cons_append.
    + constructor; assumption.
Qed.

Section Seeding.

(** The loop of [executemany] over any list of names. *)
Variable names : list string.

Let seeded (t : Table AidType) : Table AidType :=
  fold_left (fun t name => insert_aid_type name t) names t.

Lemma seeded_names (s : string) (t : Table AidType) :
  In s (map t_aid_name (rows (seeded t)))
  <-> In s names \/ In s (map t_aid_name (rows t)).
Proof.
  unfold seeded. revert t.
  induction names as [| n l IH]; intros t; simpl.
  - tauto.
  - rewrite IH, insert_aid_type_names. intuition congruence.
Qed.

Lemma seeded_unique (t : Table AidType) :
  NoDup (map t_aid_name (rows t)) ->
  NoDup (map t_aid_name (rows (seeded t))).
Proof.
  unfold seeded. revert t.
  induction names as [| n l IH]; intros t H; simpl.
  - exact H.
  - apply IH, insert_aid_type_unique, H.
Qed.

Lemma seeded_again (t : Table AidType) :
  (forall s, In s names -> In s (map t_aid_name (rows t))) ->
  rows (seeded t) = rows t.
Proof.
  unfold seeded. revert t.
  induction names as [| n l IH]; intros t H; simpl.
  - reflexivity.
  - assert (Hn : rows (insert_aid_type n t) = rows t).
    { apply insert_aid_type_present, H. left. reflexivity. }
    rewrite IH, Hn; [reflexivity |].
    intros s Hs. rewrite Hn. apply H. right. exact Hs.
Qed.

End Seeding.

Lemma init_db_again (db : DB) :
  (forall s, In s seed_aid_names -> In s (map t_aid_name (rows (aid_types db)))) ->
  rows (aid_types (init_db db)) = rows (aid_types db).
Proof. intros H. unfold init_db; cbn [aid_types]. apply seeded_again, H. Qed.

(** C9.  On a store whose catalogue has no name twice, one call of
    [init_db] leaves each of the five seed names in [aid_types] exactly
    once; after any number of further calls [aid_types] holds the same
    rows, and [people], [aid_requests] and [aid_delivered] are what they
    were before the first call. *)
Theorem init_db_idempotent (db : DB) :
  unique_aid_names db ->
  (forall s, In s seed_aid_names ->
     count_occ string_dec
       (map t_aid_name (rows (aid_types (init_db db)))) s = 1%nat)
  /\
  (forall n,
     rows (aid_types (init_db_times n (init_db db)))
     = rows (aid_types (init_db db))
     /\ people (init_db_times n (init_db db)) = people db
     /\ aid_requests (init_db_times n (init_db db)) = aid_requests db
     /\ aid_delivered (init_db_times n (init_db db)) = aid_delivered db).
Proof.
  intros Huniq. split.
  - intros s Hs.
    apply NoDup_count_occ'.
    + unfold init_db; cbn [aid_types]. apply seeded_unique, Huniq.
    + unfold init_db; cbn [aid_types]. apply seeded_names. left. exact Hs.
  - induction n as [| n (IH1 & IH2 & IH3 & IH4)].
    + repeat split; reflexivity.
    + unfold init_db_times in *. rewrite Nat.iter_succ.
      set (db' := Nat.iter n init_db (init_db db)) in *.
      split; [| split; [| split]].
      * rewrite (init_db_again db'); [exact IH1 |].
        intros s Hs. rewrite IH1. unfold init_db; cbn [aid_types].
        apply seeded_names. left. exact Hs.
      * exact IH2.
      * exact IH3.
      * exact IH4.
Qed.

Lemma init_db_idempotent_witness :
  count_occ string_dec
    (map t_aid_name (rows (aid_types (init_db empty_db)))) "Water" = 1%nat
  /\ rows (aid_types (init_db_times 3 (init_db empty_db)))
     = rows (aid_types (init_db empty_db)).
Proof.
  destruct (init_db_idempotent empty_db) as [H1 H2].
  - constructor.
  - split.
    + apply H1. simpl. tauto.
    + apply (H2 3%nat).
Defined.

(** ** Lists *)

Lemma filter_flat_map {A B : Type} (f : B -> bool) (h : A -> list B)
    (l : list A) :
  filter f (flat_map h l) = flat_map (fun x => filter f (h x)) l.
Proof.
  induction l as [| x l IH]; simpl; [reflexivity |].
  rewrite filter_app, IH. reflexivity.
Qed.

Lemma filter_length_perm {A : Type} (f : A -> bool) (l l' : list A) :
  Permutation l l' ->
  List.length (filter f l) = List.length (filter f l').
Proof.
  induction 1 as [| x l l' _ IH | x y l | l l' l'' _ IH1 _ IH2]; simpl.
  - reflexivity.
  - destruct (f x); simpl; congruence.
  - destruct (f x), (f y); reflexivity.
  - congruence.
Qed.

Lemma filter_none {A : Type} (f : A -> bool) (l : list A) :
  (forall x, In x l -> f x = false) -> filter f l = [].
Proof.
  induction l as [| x l IH]; simpl; intros H; [reflexivity |].
  rewrite (H x) by (left; reflexivity). apply IH. intros y Hy. apply H. auto.
Qed.

Lemma filter_all {A : Type} (f : A -> bool) (l : list A) :
  (forall x, In x l -> f x = true) -> filter f l = l.
Proof.
  induction l as [| x l IH]; simpl; intros H; [reflexivity |].
  rewrite (H x) by (left; reflexivity). f_equal. apply IH. intros y Hy.
  apply H. auto.
Qed.

Lemma filter_nil_iff {A : Type} (f : A -> bool) (l : list A) :
  filter f l = [] <-> forall x, In x l -> f x = false.
Proof.
  split; [| apply filter_none].
  intros H x Hx. destruct (f x) eqn:E; [| reflexivity].
  assert (Hin : In x (filter f l)) by (apply filter_In; auto).
  rewrite H in Hin. contradiction.
Qed.

Lemma NoDup_map_eq {A : Type} (f : A -> Z) (l : list A) (x y : A) :
  NoDup (map f l) -> In x l -> In y l -> f x = f y -> x = y.
Proof.
  induction l as [| a l IH]; simpl; [contradiction |].
  intros Hnd Hx Hy Heq. inversion Hnd as [| ? ? Hnotin Hnd']; subst.
  destruct Hx as [-> | Hx], Hy as [-> | Hy].
  - reflexivity.
  - exfalso. apply Hnotin. rewrite Heq. apply in_map, Hy.
  - exfalso. apply Hnotin. rewrite <- Heq. apply in_map, Hx.
  - apply IH; assumption.
Qed.

(** A key that is a primary key selects at most one row. *)
Lemma filter_key_unique {A : Type} (f : A -> Z) (l : list A) (k : Z) :
  NoDup (map f l) ->
  filter (fun x => f x =? k) l = []
  \/ exists x, filter (fun x => f x =? k) l = [x].
Proof.
  induction l as [| a l IH]; simpl; intros Hnd; [left; reflexivity |].
  inversion Hnd as [| ? ? Hnotin Hnd']; subst.
  destruct (f a =? k) eqn:E.
  - right. exists a. f_equal. apply filter_none. intros x Hx.
    apply Z.eqb_eq in E. apply Z.eqb_neq. intros Hk.
    apply Hnotin. rewrite E, <- Hk. apply in_map, Hx.
  - apply IH, Hnd'.
Qed.

Lemma filter_key_found {A : Type} (f : A -> Z) (l : list A) (x : A) :
  NoDup (map f l) -> In x l -> filter (fun y => f y =? f x) l = [x].
Proof.
  intros Hnd Hx.
  assert (Hin : In x (filter (fun y => f y =? f x) l)).
  { apply filter_In. split; [exact Hx | apply Z.eqb_refl]. }
  destruct (filter_key_unique f l (f x) Hnd) as [E | [y E]];
    rewrite E in Hin |- *.
  - contradiction.
  - destruct Hin as [-> | []]. reflexivity.
Qed.

Lemma flat_map_nil {A B : Type} (g : A -> list B) (l : list A) :
  (forall x, In x l -> g x = []) -> flat_map g l = [].
Proof.
  induction l as [| a l IH]; simpl; intros H; [reflexivity |].
  rewrite (H a) by (left; reflexivity). apply IH. intros x Hx. apply H. auto.
Qed.

(** Only one element of a duplicate-free list contributes to the
    concatenation when all others contribute nothing. *)
Lemma flat_map_single {A B : Type} (g : A -> list B) (l : list A) (r : A) :
  NoDup l -> In r l -> (forall x, In x l -> x <> r -> g x = []) ->
  flat_map g l = g r.
Proof.
  induction l as [| a l IH]; simpl; intros Hnd Hr Hg; [contradiction |].
  inversion Hnd as [| ? ? Hnotin Hnd']; subst.
  destruct Hr as [-> | Hr].
  - rewrite flat_map_nil; [apply app_nil_r |].
    intros x Hx. apply Hg; [right; exact Hx |].
    intros ->. contradiction.
  - rewrite (Hg a).
    + apply IH; auto.
    + left. reflexivity.
    + intros ->. contradiction.
Qed.

Lemma in_flat_map_keys {A B : Type} (f : A -> Z) (g : B -> Z)
    (h : A -> list B) (l : list A) (k : Z) :
  (forall x y, In x l -> In y (h x) -> g y = f x) ->
  In k (map g (flat_map h l)) -> In k (map f l).
Proof.
  intros Hkey Hk. apply in_map_iff in Hk. destruct Hk as (y & <- & Hy).
  apply in_flat_map in Hy. destruct Hy as (x & Hx & Hy).
  rewrite (Hkey x y Hx Hy). apply in_map, Hx.
Qed.

Lemma NoDup_flat_map_keys {A B : Type} (f : A -> Z) (g : B -> Z)
    (h : A -> list B) (l : list A) :
  NoDup (map f l) ->
  (forall x, In x l -> map g (h x) = [] \/ map g (h x) = [f x]) ->
  NoDup (map g (flat_map h l)).
Proof.
  induction l as [| a l IH]; simpl; intros Hnd Hh; [constructor |].
  inversion Hnd as [| ? ? Hnotin Hnd']; subst.
  assert (IH' : NoDup (map g (flat_map h l))).
  { apply IH; [exact Hnd' |]. intros x Hx. apply Hh. right. exact Hx. }
  rewrite map_app.
  destruct (Hh a (or_introl eq_refl)) as [-> | ->]; [exact IH' |].
  simpl. constructor; [| exact IH'].
  intros Hin. apply Hnotin.
  apply (in_flat_map_keys f g h l); [| exact Hin].
  intros x y Hx Hy.
  destruct (Hh x (or_intror Hx)) as [E | E].
  - apply (in_map g) in Hy. rewrite E in Hy. contradiction.
  - apply (in_map g) in Hy. rewrite E in Hy. destruct Hy as [<- | []].
    reflexivity.
Qed.

Lemma NoDup_flat_map {A B : Type} (h : A -> list B) (l : list A) :
  NoDup l ->
  (forall x, In x l -> NoDup (h x)) ->
  (forall x x' y, In x l -> In x' l -> In y (h x) -> In y (h x') -> x = x') ->
  NoDup (flat_map h l).
Proof.
  induction l as [| a l IH]; simpl; intros Hnd Hh Hdisj; [constructor |].
  inversion Hnd as [| ? ? Hnotin Hnd']; subst.
  apply NoDup_app.
  - apply Hh. left. reflexivity.
  - apply IH; auto. intros x x' y Hx Hx'. apply Hdisj; right; assumption.
  - intros y Hy Hy'. apply in_flat_map in Hy'. destruct Hy' as (x & Hx & Hyx).
    assert (a = x) by (apply (Hdisj a x y); simpl; auto).
    subst x. contradiction.
Qed.

Lemma NoDup_map_injective {A B : Type} (f : A -> B) (l : list A) :
  (forall x y, f x = f y -> x = y) -> NoDup l -> NoDup (map f l).
Proof.
  intros Hinj. induction 1 as [| a l Hnotin _ IH]; simpl; constructor.
  - intros Hin. apply in_map_iff in Hin. destruct Hin as (x & Hx & Hin).
    apply Hinj in Hx. subst x. contradiction.
  - exact IH.
Qed.

(** ** The joins *)

Lemma deliveries_of_nil (db : DB) (rid : Z) :
  deliveries_of db rid = [] <-> undelivered db rid.
Proof.
  unfold deliveries_of, undelivered. rewrite filter_nil_iff.
  split; intros H d Hd; apply Z.eqb_neq, H, Hd.
Qed.

Lemma in_deliveries_of (db : DB) (rid : Z) (d : AidDelivered) :
  In d (deliveries_of db rid)
  <-> In d (rows (aid_delivered db)) /\ d_request_id d = rid.
Proof. unfold deliveries_of. rewrite filter_In, Z.eqb_eq. reflexivity. Qed.

Lemma in_persons_of (db : DB) (pid : Z) (p : Person) :
  In p (persons_of db pid) <-> In p (rows (people db)) /\ p_id p = pid.
Proof. unfold persons_of. rewrite filter_In, Z.eqb_eq. reflexivity. Qed.

Lemma in_left_join (db : DB) (r : AidRequest) (o : option AidDelivered) :
  In o (left_join_delivered db r)
  <-> match o with
      | None => undelivered db (r_id r)
      | Some d => In d (rows (aid_delivered db)) /\ d_request_id d = r_id r
      end.
Proof.
  unfold left_join_delivered.
  destruct (deliveries_of db (r_id r)) as [| d0 ds] eqn:E.
  - pose proof (proj1 (deliveries_of_nil db (r_id r)) E) as Hu.
    destruct o as [d |]; simpl.
    + split.
      * intros [H | []]. discriminate.
      * intros [Hd Hid]. exfalso. exact (Hu d Hd Hid).
    + tauto.
  - rewrite <- E. destruct o as [d |].
    + rewrite in_map_iff, <- in_deliveries_of. split.
      * intros (d' & [= ->] & Hd'). exact Hd'.
      * intros H. exists d. auto.
    + split.
      * intros H. apply in_map_iff in H. destruct H as (d' & Hd' & _).
        discriminate.
      * intros Hu. apply deliveries_of_nil in Hu. rewrite Hu in E.
        discriminate.
Qed.

Lemma in_from_requests (db : DB) (j : Joined) :
  In j (from_requests db) <-> joins db j.
Proof.
  unfold from_requests, joins. rewrite in_flat_map. split.
  - intros (r & Hr & Hj). apply in_flat_map in Hj.
    destruct Hj as (p & Hp & Hj).
    apply in_map_iff in Hj. destruct Hj as (o & <- & Ho). simpl.
    apply in_persons_of in Hp. destruct Hp as [Hp Hid].
    apply in_left_join in Ho. auto.
  - intros (Hr & Hp & Hid & Hd). exists (j_r j). split; [assumption |].
    apply in_flat_map. exists (j_p j). split.
    + apply in_persons_of. auto.
    + apply in_map_iff. exists (j_d j).
      split; [destruct j; reflexivity | apply in_left_join; assumption].
Qed.

Lemma from_requests_key (db : DB) (r : AidRequest) (j : Joined) :
  In j (flat_map (fun p => map (mkJoined r p) (left_join_delivered db r))
                 (persons_of db (r_person_id r))) ->
  j_r j = r.
Proof.
  intros H. apply in_flat_map in H. destruct H as (p & _ & H).
  apply in_map_iff in H. destruct H as (o & <- & _). reflexivity.
Qed.

Lemma delivered_rows_not_null (r : AidRequest) (p : Person)
    (ds : list AidDelivered) :
  filter d_id_is_null (map (mkJoined r p) (map Some ds)) = [].
Proof.
  apply filter_none. intros j Hj. apply in_map_iff in Hj.
  destruct Hj as (o & <- & Ho). apply in_map_iff in Ho.
  destruct Ho as (d & <- & _). reflexivity.
Qed.

(** Under unique ids a request contributes at most one pending row. *)
Lemma pending_keys_unique (db : DB) :
  unique_ids db ->
  NoDup (map (fun j => r_id (j_r j)) (filter d_id_is_null (from_requests db))).
Proof.
  intros [Hp Hr _]. unfold from_requests. rewrite filter_flat_map.
  apply NoDup_flat_map_keys with (f := r_id); [exact Hr |].
  intros r _.
  destruct (filter_key_unique p_id (rows (people db)) (r_person_id r) Hp)
    as [E | [p E]]; unfold persons_of; rewrite E; simpl.
  - left. reflexivity.
  - rewrite app_nil_r. unfold left_join_delivered.
    destruct (deliveries_of db (r_id r)) as [| d0 ds].
    + right. reflexivity.
    + left. rewrite delivered_rows_not_null. reflexivity.
Qed.

(** ** Pending requests *)

Lemma in_list_pending_requests (db : DB)
    (row : Z * string * string * string * string) :
  In row (list_pending_requests db) <->
  exists r p,
    In r (rows (aid_requests db)) /\ In p (rows (people db))
    /\ p_id p = r_person_id r /\ undelivered db (r_id r)
    /\ row = (r_id r, p_name p, p_area p, r_aid_type r, r_request_date r).
Proof.
  unfold list_pending_requests, pending_rows.
  rewrite in_map_iff. split.
  - intros (j & <- & Hj). apply order_by_desc_In, filter_In in Hj.
    destruct Hj as [Hj Hnull]. apply in_from_requests in Hj.
    destruct Hj as (Hr & Hp & Hid & Hd).
    unfold d_id_is_null in Hnull.
    destruct (j_d j); [discriminate |].
    exists (j_r j), (j_p j). auto.
  - intros (r & p & Hr & Hp & Hid & Hu & ->).
    exists (mkJoined r p None). split; [reflexivity |].
    apply order_by_desc_In, filter_In. split; [| reflexivity].
    apply in_from_requests. unfold joins. simpl. auto.
Qed.

(** C5 (as amended).  In a store whose ids are unique and in which every
    request names a stored person, [list_pending_requests] returns the
    tuple (request id, person name, area, aid type, request date) of
    exactly those requests that no delivery references: every such
    request has its tuple in the list, every tuple of the list is the
    tuple of such a request, and the request ids of the list go strictly
    down, so that no request is listed twice. *)
Theorem list_pending_requests_lists_undelivered (db : DB) :
  unique_ids db ->
  (forall r, In r (rows (aid_requests db)) -> person_exists db r) ->
  (forall r,
     In r (rows (aid_requests db)) -> undelivered db (r_id r) ->
     exists p,
       In p (rows (people db)) /\ p_id p = r_person_id r
       /\ In (r_id r, p_name p, p_area p, r_aid_type r, r_request_date r)
             (list_pending_requests db))
  /\ (forall row,
        In row (list_pending_requests db) ->
        exists r p,
          In r (rows (aid_requests db)) /\ In p (rows (people db))
          /\ p_id p = r_person_id r /\ undelivered db (r_id r)
          /\ row = (r_id r, p_name p, p_area p, r_aid_type r,
                    r_request_date r))
  /\ StronglySorted Z.gt (map first_column (list_pending_requests db)).
Proof.
  intros Huniq Hrefs. split; [| split].
  - intros r Hr Hu. destruct (Hrefs r Hr) as (p & Hp & Hid).
    exists p. repeat split; try assumption.
    apply in_list_pending_requests. exists r, p. auto.
  - intros row Hrow. apply in_list_pending_requests, Hrow.
  - unfold list_pending_requests, pending_rows. rewrite map_map.
    apply (order_by_desc_keys_strict (fun j => r_id (j_r j))).
    apply pending_keys_unique, Huniq.
Qed.

(** C5 (as stated) fails: after [add_request] for a person that is not
    stored, the request has no delivery and yet is not listed. *)
Lemma pending_request_of_unknown_person_not_listed :
  exists db,
    add_request 99 "Food" "2024-01-10" empty_db = Ok db
    /\ rows (aid_requests db) = [mkAidRequest 1 99 "Food" "2024-01-10"]
    /\ rows (aid_delivered db) = []
    /\ list_pending_requests db = [].
Proof. eexists. repeat split; reflexivity. Qed.

Ltac distinct_ids :=
  repeat (constructor; [simpl; intuition discriminate |]); constructor.

Lemma list_pending_requests_lists_undelivered_witness :
  (exists p,
     In p (rows (people sample_db)) /\ p_id p = 1
     /\ In (3, p_name p, p_area p, "Shelter", "2024-01-12")
           (list_pending_requests sample_db))
  /\ StronglySorted Z.gt (map first_column (list_pending_requests sample_db)).
Proof.
  destruct (list_pending_requests_lists_undelivered sample_db)
    as (H1 & _ & H3).
  - constructor; simpl; distinct_ids.
  - intros r [<- | [<- | [<- | []]]].
    + exists (mkPerson 1 "Asha" "North" (Some 34)). simpl. auto.
    + exists (mkPerson 2 "Ravi" "South" None). simpl. auto.
    + exists (mkPerson 1 "Asha" "North" (Some 34)). simpl. auto.
  - split; [| exact H3].
    apply (H1 (mkAidRequest 3 1 "Shelter" "2024-01-12")).
    + simpl. auto.
    + intros d [<- | [<- | []]]; simpl; discriminate.
Defined.

(** ** Requests with several deliveries *)

Lemma search_rows_of_request (db : DB) (status : string) (r : AidRequest)
    (p : Person) :
  unique_ids db ->
  In r (rows (aid_requests db)) -> In p (rows (people db)) ->
  p_id p = r_person_id r ->
  deliveries_of db (r_id r) <> [] ->
  status = "Delivered" \/ status = "All" ->
  List.length (filter (fun j => r_id (j_r j) =? r_id r)
                      (search_rows "" status db))
  = List.length (deliveries_of db (r_id r)).
Proof.
  intros [Hp Hr _] Hin Hinp Hid Hds Hstatus.
  unfold search_rows.
  rewrite (filter_length_perm _ _ _ (order_by_desc_perm _ _)).
  unfold from_requests. rewrite !filter_flat_map.
  rewrite (flat_map_single _ (rows (aid_requests db)) r).
  - unfold persons_of. rewrite <- Hid.
    rewrite (filter_key_found p_id _ p Hp Hinp). simpl. rewrite app_nil_r.
    unfold left_join_delivered.
    destruct (deliveries_of db (r_id r)) as [| d0 ds] eqn:E; [congruence |].
    rewrite !filter_all.
    + rewrite !length_map. reflexivity.
    + intros j Hj. apply in_map_iff in Hj. destruct Hj as (o & <- & Ho).
      apply in_map_iff in Ho. destruct Ho as (d & <- & _).
      destruct Hstatus as [-> | ->]; reflexivity.
    + intros j Hj. apply filter_In in Hj. destruct Hj as [Hj _].
      apply in_map_iff in Hj. destruct Hj as (o & <- & _). simpl.
      apply Z.eqb_refl.
  - apply NoDup_map_inv with (f := r_id). exact Hr.
  - exact Hin.
  - intros x Hx Hne. apply filter_none. intros j Hj.
    apply filter_In in Hj. destruct Hj as [Hj _].
    apply from_requests_key in Hj. rewrite Hj.
    apply Z.eqb_neq. intros Heq. apply Hne.
    apply (NoDup_map_eq r_id (rows (aid_requests db))); assumption.
Qed.

(** C3 (as amended).  In a store whose ids are unique, a request of a
    stored person that [k] deliveries reference, [k] at least one,
    appears in no row of [list_pending_requests] and in exactly [k] rows
    of [search] with the status [Delivered] and with the status [All]:
    one row for each delivery. *)
Theorem delivered_request_listed_per_delivery (db : DB) (r : AidRequest)
    (p : Person) :
  unique_ids db ->
  In r (rows (aid_requests db)) -> In p (rows (people db)) ->
  p_id p = r_person_id r ->
  deliveries_of db (r_id r) <> [] ->
  (forall row, In row (list_pending_requests db) -> first_column row <> r_id r)
  /\ List.length (filter (fun j => r_id (j_r j) =? r_id r)
                         (search_rows "" "Delivered" db))
     = List.length (deliveries_of db (r_id r))
  /\ List.length (filter (fun j => r_id (j_r j) =? r_id r)
                         (search_rows "" "All" db))
     = List.length (deliveries_of db (r_id r))
  /\ (forall status,
        List.length (search "" status db)
        = List.length (search_rows "" status db)).
Proof.
  intros Huniq Hin Hinp Hid Hds.
  split; [| split; [| split]].
  - intros row Hrow Heq.
    apply in_list_pending_requests in Hrow.
    destruct Hrow as (r' & p' & _ & _ & _ & Hu & ->).
    unfold first_column in Heq. simpl in Heq.
    rewrite Heq in Hu. apply deliveries_of_nil in Hu. contradiction.
  - apply search_rows_of_request with (p := p); auto.
  - apply search_rows_of_request with (p := p); auto.
  - intros status. unfold search. apply length_map.
Qed.

Lemma delivered_request_listed_per_delivery_witness :
  List.length (filter (fun j => r_id (j_r j) =? 1)
                      (search_rows "" "Delivered" sample_db)) = 2%nat.
Proof.
  destruct (delivered_request_listed_per_delivery sample_db
              (mkAidRequest 1 1 "Food" "2024-01-10")
              (mkPerson 1 "Asha" "North" (Some 34))) as (_ & H & _).
  - constructor; simpl; distinct_ids.
  - simpl. auto.
  - simpl. auto.
  - reflexivity.
  - discriminate.
  - exact H.
Defined.

(** C3 (as stated) fails: request 1 of the sample store has two
    deliveries and fills two rows of [search] with the status
    [Delivered], and two of the three rows with the status [All]. *)
Lemma twice_delivered_request_listed_twice :
  deliveries_of sample_db 1
  = [mkAidDelivered 1 1 "Rice 5kg" "2024-01-12";
     mkAidDelivered 2 1 "Rice 5kg" "2024-01-13"]
  /\ search "" "Delivered" sample_db
     = [("Asha", "North", "Food", "2024-01-10", "2024-01-12");
        ("Asha", "North", "Food", "2024-01-10", "2024-01-13")]
  /\ search "" "All" sample_db
     = [("Asha", "North", "Shelter", "2024-01-12", "PENDING");
        ("Ravi", "South", "Water", "2024-01-11", "PENDING");
        ("Asha", "North", "Food", "2024-01-10", "2024-01-12");
        ("Asha", "North", "Food", "2024-01-10", "2024-01-13")].
Proof. repeat split; reflexivity. Qed.

(** ** The pattern match of [search] *)

Lemma list_ascii_of_string_app (s t : string) :
  list_ascii_of_string (s ++ t)%string
  = list_ascii_of_string s ++ list_ascii_of_string t.
Proof.
  induction s as [| c s IH]; simpl; [reflexivity |]. rewrite IH. reflexivity.
Qed.

Lemma like_percent_cons (pat s : list ascii) :
  like_chars (percent :: pat) s
  = (like_chars pat s
     || match s with
        | [] => false
        | _ :: s' => like_chars (percent :: pat) s'
        end)%bool.
Proof. destruct s; reflexivity. Qed.

Lemma like_only_percent (s : list ascii) : like_chars [percent] s = true.
Proof.
  induction s as [| c s IH]; rewrite like_percent_cons; [reflexivity |].
  rewrite IH. apply orb_true_r.
Qed.

Lemma like_literal_cons (c : ascii) (pat s : list ascii) :
  Ascii.eqb c percent = false -> Ascii.eqb c underscore = false ->
  like_chars (c :: pat) s
  = match s with
    | [] => false
    | d :: s' => (Ascii.eqb (lower c) (lower d) && like_chars pat s')%bool
    end.
Proof. intros H1 H2. simpl. rewrite H1, H2. reflexivity. Qed.

Lemma like_prefix (a s : list ascii) :
  wildcard_free_chars a = true ->
  like_chars (a ++ [percent]) s
  = prefix_by (fun c d => Ascii.eqb (lower c) (lower d)) a s.
Proof.
  revert s. induction a as [| c a IH]; intros s Hw.
  - simpl app. rewrite like_only_percent. reflexivity.
  - simpl in Hw. apply andb_true_iff in Hw. destruct Hw as [Hc Hw].
    apply negb_true_iff, orb_false_iff in Hc. destruct Hc as [Hc1 Hc2].
    simpl app. rewrite like_literal_cons by assumption.
    destruct s as [| d s]; [reflexivity |].
    rewrite IH by assumption. reflexivity.
Qed.

Lemma like_contains (a s : list ascii) :
  wildcard_free_chars a = true ->
  like_chars (percent :: a ++ [percent]) s
  = contains_by (fun c d => Ascii.eqb (lower c) (lower d)) a s.
Proof.
  intros Hw. induction s as [| d s IH]; rewrite like_percent_cons, like_prefix
    by assumption.
  - reflexivity.
  - rewrite IH. reflexivity.
Qed.

Lemma like_area_filter (area text : string) :
  wildcard_free area = true ->
  like text ("%" ++ area ++ "%")%string = contains_nocase text area.
Proof.
  intros Hw. unfold like, contains_nocase.
  change ("%" ++ area ++ "%")%string with (String percent (area ++ "%")%string).
  simpl list_ascii_of_string at 1. rewrite list_ascii_of_string_app.
  apply like_contains, Hw.
Qed.

(** ** Search *)

Lemma status_clause_spec (status : string) (j : Joined) :
  status_clause status j = true
  <-> (status = "Pending" -> j_d j = None)
      /\ (status = "Delivered" -> j_d j <> None).
Proof.
  unfold status_clause, d_id_is_null.
  destruct (String.eqb status "Pending") eqn:E1.
  - apply String.eqb_eq in E1. subst status.
    destruct (j_d j); split; try discriminate; auto.
    + intros [H _]. discriminate (H eq_refl).
    + intros _. split; [reflexivity | discriminate].
  - apply String.eqb_neq in E1.
    destruct (String.eqb status "Delivered") eqn:E2.
    + apply String.eqb_eq in E2. subst status.
      destruct (j_d j); simpl; split; try discriminate; auto.
      * intros _. split; [discriminate | discriminate].
      * intros [_ H]. exfalso. apply H; reflexivity.
    + apply String.eqb_neq in E2. split; [| reflexivity].
      intros _. split; intros H; contradiction.
Qed.

Lemma area_clause_spec (area : string) (j : Joined) :
  area_clause area j = true
  <-> area = "" \/ like (p_area (j_p j)) ("%" ++ area ++ "%")%string = true.
Proof.
  unfold area_clause. destruct (String.eqb area "") eqn:E.
  - apply String.eqb_eq in E. tauto.
  - apply String.eqb_neq in E. tauto.
Qed.

Lemma in_search_rows (area status : string) (db : DB) (j : Joined) :
  In j (search_rows area status db)
  <-> joins db j /\ area_clause area j = true /\ status_clause status j = true.
Proof.
  unfold search_rows, search_where.
  rewrite order_by_desc_In, filter_In, in_from_requests, andb_true_iff.
  reflexivity.
Qed.

Lemma from_requests_NoDup (db : DB) : unique_ids db -> NoDup (from_requests db).
Proof.
  intros [Hp Hr Hd]. unfold from_requests.
  apply NoDup_flat_map.
  - apply NoDup_map_inv with (f := r_id), Hr.
  - intros r _. apply NoDup_flat_map.
    + apply NoDup_filter, NoDup_map_inv with (f := p_id), Hp.
    + intros p _. apply NoDup_map_injective; [intros x y [= H]; exact H |].
      unfold left_join_delivered.
      destruct (deliveries_of db (r_id r)) as [| d0 ds] eqn:E.
      * constructor; [intros [] | constructor].
      * rewrite <- E. apply NoDup_map_injective; [intros x y [= H]; exact H |].
        apply NoDup_filter, NoDup_map_inv with (f := d_id), Hd.
    + intros p p' j _ _ Hj Hj'.
      apply in_map_iff in Hj, Hj'.
      destruct Hj as (o & <- & _), Hj' as (o' & [= H _] & _). auto.
  - intros r r' j _ _ Hj Hj'.
    apply from_requests_key in Hj, Hj'. congruence.
Qed.

(** C4 (as amended).  For every store and every pair of arguments,
    [search] returns the rows of the join of requests with their person
    and, from the left, with their deliveries (one row for each delivery
    of a request, one row for a request without delivery, none for a
    request whose person is not stored) that pass both filters: a
    non-empty area filter is applied as the pattern [%area%] of [LIKE],
    which for a filter without [%] and [_] holds exactly when the area
    contains the filter up to the case of ASCII letters; the status
    [Pending] keeps the rows without delivery and [Delivered] the rows
    with one.  With unique ids no row comes twice.  The rows are ordered
    by request id, descending, and the last column is the text PENDING
    for a row without delivery and the delivery date otherwise. *)
Theorem search_returns_matching_rows (area status : string) (db : DB) :
  (forall j,
     In j (search_rows area status db) <->
     joins db j
     /\ (area = "" \/ like (p_area (j_p j)) ("%" ++ area ++ "%")%string = true)
     /\ (status = "Pending" -> j_d j = None)
     /\ (status = "Delivered" -> j_d j <> None))
  /\ (wildcard_free area = true ->
      forall text,
        like text ("%" ++ area ++ "%")%string = contains_nocase text area)
  /\ (unique_ids db -> NoDup (search_rows area status db))
  /\ StronglySorted Z.ge (map (fun j => r_id (j_r j)) (search_rows area status db))
  /\ search area status db = map search_select (search_rows area status db)
  /\ (forall j,
        In j (search_rows area status db) ->
        snd (search_select j)
        = match j_d j with
          | None => "PENDING"
          | Some d => d_delivery_date d
          end).
Proof.
  split; [| split; [| split; [| split; [| split]]]].
  - intros j. rewrite in_search_rows, area_clause_spec, status_clause_spec.
    tauto.
  - intros Hw text. apply like_area_filter, Hw.
  - intros Huniq. unfold search_rows.
    apply Permutation_NoDup with (filter (search_where area status)
                                         (from_requests db)).
    + apply Permutation_sym, order_by_desc_perm.
    + apply NoDup_filter, from_requests_NoDup, Huniq.
  - apply order_by_desc_keys_sorted.
  - reflexivity.
  - intros j _. reflexivity.
Qed.

Lemma search_returns_matching_rows_witness :
  like "North" "%nor%" = contains_nocase "North" "nor"
  /\ NoDup (search_rows "nor" "All" sample_db).
Proof.
  destruct (search_returns_matching_rows "nor" "All" sample_db)
    as (_ & H2 & H3 & _).
  split.
  - apply H2. reflexivity.
  - apply H3. constructor; simpl; distinct_ids.
Defined.

(** C4 (as stated) fails: the filter [north] finds the request of a
    person whose area is [North], which does not contain [north]. *)
Lemma search_area_filter_folds_case :
  contains "North" "north" = false
  /\ search "north" "Pending" sample_db
     = [("Asha", "North", "Shelter", "2024-01-12", "PENDING")].
Proof. split; reflexivity. Qed.

(** ** The three status filters *)

Lemma filter_partition_perm {A : Type} (f : A -> bool) (l : list A) :
  Permutation l (filter f l ++ filter (fun x => negb (f x)) l).
Proof.
  induction l as [| x l IH]; simpl; [constructor |].
  destruct (f x); simpl.
  - apply perm_skip, IH.
  - apply Permutation_cons_app, IH.
Qed.

Lemma search_rows_all (db : DB) :
  Permutation (search_rows "" "All" db) (from_requests db).
Proof.
  unfold search_rows.
  rewrite (filter_all (search_where "" "All")) by reflexivity.
  apply order_by_desc_perm.
Qed.

Lemma search_rows_pending (db : DB) :
  Permutation (search_rows "" "Pending" db)
              (filter d_id_is_null (from_requests db)).
Proof. apply order_by_desc_perm. Qed.

Lemma search_rows_delivered (db : DB) :
  Permutation (search_rows "" "Delivered" db)
              (filter (fun j => negb (d_id_is_null j)) (from_requests db)).
Proof. apply order_by_desc_perm. Qed.

Lemma search_all_perm (db : DB) :
  Permutation (search "" "All" db)
              (search "" "Pending" db ++ search "" "Delivered" db).
Proof.
  unfold search. rewrite <- map_app. apply Permutation_map.
  apply perm_trans with (from_requests db); [apply search_rows_all |].
  apply perm_trans
    with (filter d_id_is_null (from_requests db)
          ++ filter (fun j => negb (d_id_is_null j)) (from_requests db)).
  - apply filter_partition_perm.
  - apply Permutation_app; apply Permutation_sym;
      [apply search_rows_pending | apply search_rows_delivered].
Qed.

(** A displayed row can be in both restricted results only when a stored
    delivery carries the text PENDING as its date. *)
Lemma search_shared_row (db : DB)
    (row : string * string * string * string * string) :
  In row (search "" "Pending" db) -> In row (search "" "Delivered" db) ->
  exists d, In d (rows (aid_delivered db)) /\ d_delivery_date d = "PENDING".
Proof.
  intros H1 H2. unfold search in H1, H2.
  apply in_map_iff in H1, H2.
  destruct H1 as (j1 & <- & H1), H2 as (j2 & Heq & H2).
  apply in_search_rows in H1, H2.
  destruct H1 as (_ & _ & H1), H2 as ((_ & _ & _ & Hd) & _ & H2).
  apply status_clause_spec in H1, H2.
  destruct H1 as [H1 _], H2 as [_ H2].
  specialize (H1 eq_refl). specialize (H2 eq_refl).
  unfold search_select, status_column in Heq. rewrite H1 in Heq.
  destruct (j_d j2) as [d |]; [| contradiction].
  exists d. split; [apply Hd |]. congruence.
Qed.

(** C6 (as amended).  In a store where no delivery carries the text
    PENDING as its date, the rows that [search] returns for the empty
    area filter and the status [All] are, as a set, the disjoint union
    of the rows for [Pending] and the rows for [Delivered]: a row is in
    the result for [All] exactly when it is in one of the two others,
    no row is in both, and as lists the result for [All] is a
    rearrangement of the two others put together. *)
Theorem search_all_splits_into_pending_and_delivered (db : DB) :
  (forall d, In d (rows (aid_delivered db)) -> d_delivery_date d <> "PENDING") ->
  (forall row,
     In row (search "" "All" db) <->
     In row (search "" "Pending" db) \/ In row (search "" "Delivered" db))
  /\ (forall row,
        ~ (In row (search "" "Pending" db)
           /\ In row (search "" "Delivered" db)))
  /\ Permutation (search "" "All" db)
                 (search "" "Pending" db ++ search "" "Delivered" db).
Proof.
  intros Hdate. split; [| split].
  - intros row. rewrite <- in_app_iff. split; intros H.
    + eapply Permutation_in; [apply search_all_perm | exact H].
    + eapply Permutation_in; [apply Permutation_sym, search_all_perm | exact H].
  - intros row [H1 H2].
    destruct (search_shared_row db row H1 H2) as (d & Hd & Hp).
    exact (Hdate d Hd Hp).
  - apply search_all_perm.
Qed.

Lemma search_all_splits_into_pending_and_delivered_witness :
  ~ (In ("Ravi", "South", "Water", "2024-01-11", "PENDING")
        (search "" "Pending" sample_db)
     /\ In ("Ravi", "South", "Water", "2024-01-11", "PENDING")
           (search "" "Delivered" sample_db))
  /\ Permutation (search "" "All" sample_db)
                 (search "" "Pending" sample_db
                  ++ search "" "Delivered" sample_db).
Proof.
  destruct (search_all_splits_into_pending_and_delivered sample_db)
    as (_ & H2 & H3).
  - intros d Hd. simpl in Hd.
    destruct Hd as [<- | [<- | []]]; discriminate.
  - split; [apply H2 | exact H3].
Defined.

(** C6 (as stated) fails: after one person, the same request filed
    twice and a delivery of the first dated with the text PENDING, the
    one row of the result for [Pending] is also the one row of the
    result for [Delivered]. *)
Lemma delivery_dated_pending_is_in_both :
  exists db,
    pending_dated_db = Ok db
    /\ search "" "Pending" db
       = [("Asha", "North", "Food", "2024-01-10", "PENDING")]
    /\ search "" "Delivered" db
       = [("Asha", "North", "Food", "2024-01-10", "PENDING")]
    /\ search "" "All" db
       = [("Asha", "North", "Food", "2024-01-10", "PENDING");
          ("Asha", "North", "Food", "2024-01-10", "PENDING")].
Proof.
  eexists. split; [reflexivity |]. repeat split.
Qed.

(** ** The summary by area *)

Lemma map_flat_map {A B C : Type} (f : B -> C) (h : A -> list B) (l : list A) :
  map f (flat_map h l) = flat_map (fun x => map f (h x)) l.
Proof.
  induction l as [| x l IH]; simpl; [reflexivity |].
  rewrite map_app, IH. reflexivity.
Qed.

Lemma existsb_filter {A : Type} (p g : A -> bool) (l : list A) :
  existsb (fun x => p x && g x) l = existsb g (filter p l).
Proof.
  induction l as [| x l IH]; simpl; [reflexivity |].
  destruct (p x); simpl; rewrite IH; reflexivity.
Qed.

Lemma summary_keys (db : DB) :
  map (fun t => p_area (snd t)) (from_delivered db)
  = flat_map (areas_of db) (rows (aid_delivered db)).
Proof.
  unfold from_delivered, areas_of. rewrite map_flat_map.
  apply flat_map_ext. intros d. rewrite map_flat_map.
  apply flat_map_ext. intros r. rewrite map_map. reflexivity.
Qed.

(** Under unique ids the join finds at most one area for a delivery, and
    it is the given one exactly when the test of [delivered_in_area]
    succeeds. *)
Lemma areas_of_unique (db : DB) (d : AidDelivered) (area : string) :
  unique_ids db ->
  count_occ string_dec (areas_of db d) area
  = if delivered_to_area db area d then 1%nat else 0%nat.
Proof.
  intros [Hp Hr _]. unfold areas_of, delivered_to_area.
  rewrite existsb_filter. fold (requests_of db (d_request_id d)).
  unfold requests_of.
  destruct (filter_key_unique r_id (rows (aid_requests db)) (d_request_id d) Hr)
    as [E | [r E]]; rewrite E; simpl; [reflexivity |].
  rewrite app_nil_r, orb_false_r, existsb_filter.
  fold (persons_of db (r_person_id r)). unfold persons_of.
  destruct (filter_key_unique p_id (rows (people db)) (r_person_id r) Hp)
    as [E' | [p E']]; rewrite E'; simpl; [reflexivity |].
  rewrite orb_false_r.
  destruct (string_dec (p_area p) area) as [-> | Hne].
  - rewrite String.eqb_refl. reflexivity.
  - apply String.eqb_neq in Hne. rewrite Hne. reflexivity.
Qed.

Lemma count_occ_flat_map (db : DB) (area : string) (ds : list AidDelivered) :
  unique_ids db ->
  count_occ string_dec (flat_map (areas_of db) ds) area
  = List.length (filter (delivered_to_area db area) ds).
Proof.
  intros Huniq. induction ds as [| d ds IH]; simpl; [reflexivity |].
  rewrite count_occ_app, IH, areas_of_unique by assumption.
  destruct (delivered_to_area db area d); reflexivity.
Qed.

Lemma summary_count (db : DB) (area : string) :
  unique_ids db ->
  Z.of_nat (count_occ string_dec
              (map (fun t => p_area (snd t)) (from_delivered db)) area)
  = delivered_in_area db area.
Proof.
  intros Huniq. rewrite summary_keys, count_occ_flat_map by assumption.
  reflexivity.
Qed.

Lemma in_group_count (keys : list string) (k : string) (n : Z) :
  In (k, n) (group_count keys)
  <-> n = Z.of_nat (count_occ string_dec keys k) /\ 1 <= n.
Proof.
  unfold group_count. rewrite in_map_iff. split.
  - intros (k' & [= -> <-] & Hin). split; [reflexivity |].
    apply nodup_In, (count_occ_In string_dec) in Hin. lia.
  - intros [-> Hpos]. exists k. split; [reflexivity |].
    apply nodup_In, (count_occ_In string_dec). lia.
Qed.

Lemma group_count_keys (keys : list string) :
  map fst (group_count keys) = nodup string_dec keys.
Proof.
  unfold group_count. rewrite map_map. simpl. apply map_id.
Qed.


Lemma total_perm (l l' : list Z) : Permutation l l' -> total l = total l'.
Proof.
  induction 1; simpl; lia.
Qed.

Lemma total_indicator (x : string) (ks : list string) :
  NoDup ks -> In x ks ->
  total (map (fun k => if string_dec x k then 1 else 0) ks) = 1.
Proof.
  induction 1 as [| k ks Hnotin Hnd IH]; simpl; [contradiction |].
  intros [-> | Hin].
  - destruct (string_dec x x) as [_ | Hne]; [| contradiction].
    assert (Hz : total (map (fun k => if string_dec x k then 1 else 0) ks) = 0).
    { clear IH Hnd. induction ks as [| k ks IHk]; simpl; [reflexivity |].
      destruct (string_dec x k) as [-> | _].
      - exfalso. apply Hnotin. left. reflexivity.
      - rewrite IHk; [reflexivity |]. intros H. apply Hnotin. right. exact H. }
    lia.
  - destruct (string_dec x k) as [-> | _]; [contradiction |].
    rewrite IH by assumption. reflexivity.
Qed.

Lemma total_counts (keys ks : list string) :
  NoDup ks -> (forall x, In x keys -> In x ks) ->
  total (map (fun k => Z.of_nat (count_occ string_dec keys k)) ks)
  = Z.of_nat (List.length keys).
Proof.
  intros Hnd. induction keys as [| x keys IH]; intros Hsub.
  - simpl. clear. induction ks as [| k ks IHk]; simpl; [reflexivity |].
    rewrite IHk. reflexivity.
  - assert (Hstep :
      total (map (fun k => Z.of_nat (count_occ string_dec (x :: keys) k)) ks)
      = total (map (fun k => if string_dec x k then 1 else 0) ks)
        + total (map (fun k => Z.of_nat (count_occ string_dec keys k)) ks)).
    { clear. induction ks as [| k ks IHk]; [reflexivity |].
      cbn [map total fold_right] in *. unfold total in IHk. rewrite IHk.
      simpl count_occ. destruct (string_dec x k); lia. }
    rewrite Hstep, total_indicator, IH.
    + simpl List.length. lia.
    + intros y Hy. apply Hsub. right. exact Hy.
    + exact Hnd.
    + apply Hsub. left. reflexivity.
Qed.

Lemma group_count_total (keys : list string) :
  total (map snd (group_count keys)) = Z.of_nat (List.length keys).
Proof.
  unfold group_count. rewrite map_map. simpl.
  apply total_counts.
  - apply NoDup_nodup.
  - intros x Hx. apply nodup_In, Hx.
Qed.

Lemma areas_of_existing (db : DB) (d : AidDelivered) :
  unique_ids db -> request_exists db d ->
  List.length (areas_of db d) = 1%nat.
Proof.
  intros [Hp Hr _] (r & Hin & Hid & p & Hinp & Hpid).
  unfold areas_of, requests_of. rewrite <- Hid.
  rewrite (filter_key_found r_id _ r Hr Hin). simpl. rewrite app_nil_r.
  unfold persons_of. rewrite <- Hpid.
  rewrite (filter_key_found p_id _ p Hp Hinp). reflexivity.
Qed.

Lemma from_delivered_length (db : DB) :
  unique_ids db ->
  (forall d, In d (rows (aid_delivered db)) -> request_exists db d) ->
  List.length (from_delivered db) = List.length (rows (aid_delivered db)).
Proof.
  intros Huniq Hrefs.
  rewrite <- (length_map (fun t => p_area (snd t))), summary_keys.
  induction (rows (aid_delivered db)) as [| d ds IH]; simpl; [reflexivity |].
  rewrite length_app, areas_of_existing, IH.
  - reflexivity.
  - intros d' Hd'. apply Hrefs. right. exact Hd'.
  - exact Huniq.
  - apply Hrefs. left. reflexivity.
Qed.

(** C7 (as amended).  In a store whose ids are unique,
    [delivered_summary_by_area] returns one row (area, count) for each
    area that has a delivery, the count being the number of deliveries
    whose request belongs to a person of that area, and the rows come in
    descending order of count.  When every delivery references a stored
    request of a stored person, the counts add up to the number of
    deliveries, whether or not a request has several of them. *)
Theorem delivered_summary_counts_by_area (db : DB) :
  unique_ids db ->
  NoDup (map fst (delivered_summary_by_area db))
  /\ (forall area n,
        In (area, n) (delivered_summary_by_area db) <->
        n = delivered_in_area db area /\ 1 <= n)
  /\ StronglySorted Z.ge (map snd (delivered_summary_by_area db))
  /\ ((forall d, In d (rows (aid_delivered db)) -> request_exists db d) ->
      total (map snd (delivered_summary_by_area db)) = count_deliveries db).
Proof.
  intros Huniq. unfold delivered_summary_by_area.
  set (keys := map (fun t => p_area (snd t)) (from_delivered db)).
  split; [| split; [| split]].
  - apply Permutation_NoDup with (map fst (group_count keys)).
    + apply Permutation_map, Permutation_sym, order_by_desc_perm.
    + rewrite group_count_keys. apply NoDup_nodup.
  - intros area n. rewrite order_by_desc_In, in_group_count.
    unfold keys. rewrite summary_count by assumption. reflexivity.
  - apply order_by_desc_keys_sorted.
  - intros Hrefs.
    rewrite (total_perm _ (map snd (group_count keys))).
    + rewrite group_count_total. unfold keys, count_deliveries.
      rewrite length_map, from_delivered_length by assumption. reflexivity.
    + apply Permutation_map, order_by_desc_perm.
Qed.

Lemma delivered_summary_counts_by_area_witness :
  In ("North", 2) (delivered_summary_by_area sample_db)
  /\ total (map snd (delivered_summary_by_area sample_db))
     = count_deliveries sample_db.
Proof.
  destruct (delivered_summary_counts_by_area sample_db) as (_ & H2 & _ & H4).
  - constructor; simpl; distinct_ids.
  - split.
    + apply H2. split; [reflexivity | lia].
    + apply H4. intros d [<- | [<- | []]];
        exists (mkAidRequest 1 1 "Food" "2024-01-10");
        (split; [simpl; auto |]); (split; [reflexivity |]);
        exists (mkPerson 1 "Asha" "North" (Some 34)); simpl; auto.
Defined.

(** C7 (as stated) fails in its last part: the four calls below leave a
    store in which the only request has one delivery, and yet the counts
    of the summary add up to 1 while two deliveries are stored, because
    the second delivery names a request that does not exist. *)
Lemma summary_total_misses_stray_delivery :
  and_then (and_then (and_then
     (add_person "Asha" "North" (Some 34) empty_db)
     (add_request 1 "Food" "2024-01-10"))
     (mark_delivered 1 "Rice 5kg" "2024-01-12"))
     (mark_delivered 7 "Tent" "2024-01-13")
  = Ok stray_db
  /\ (forall r, In r (rows (aid_requests stray_db)) ->
        (List.length (deliveries_of stray_db (r_id r)) <= 1)%nat)
  /\ delivered_summary_by_area stray_db = [("North", 1)]
  /\ count_deliveries stray_db = 2.
Proof.
  split; [reflexivity |]. split; [| split; reflexivity].
  intros r [<- | []]. simpl. lia.
Qed.

(** ** The CSV export read back *)

Import Csv.

(** *** The reader, one input at a time *)

Lemma run_line (line : list ascii) (r : Reader) (more : list input) :
  run r (map Char line ++ EOL :: more)
  = match parse_line r line with
    | Raise e => Raise e
    | Ok r' =>
        if in_state r' START_RECORD
        then emit (fields r') (run parse_reset more)
        else run r' more
    end.
Proof.
  revert r. induction line as [| c line IH]; intros r; simpl.
  - destruct (parse_process_char r EOL); reflexivity.
  - destruct (parse_process_char r (Char c)) as [r' | e]; [apply IH | reflexivity].
Qed.

Lemma read_records_run (lines : list (list ascii)) (r : Reader) :
  read_records r lines = run r (feed lines).
Proof.
  revert r. induction lines as [| line more IH]; intros r; [reflexivity |].
  unfold feed. cbn [flat_map]. fold (feed more).
  rewrite <- app_assoc. cbn [app]. rewrite run_line. cbn [read_records].
  destruct (parse_line r line) as [r' | e]; [| reflexivity].
  destruct (in_state r' START_RECORD); rewrite IH; reflexivity.
Qed.

Lemma run_char (r r' : Reader) (c : ascii) (more : list input) :
  parse_process_char r (Char c) = Ok r' ->
  run r (Char c :: more) = run r' more.
Proof. intros H. simpl. rewrite H. reflexivity. Qed.

Lemma run_eol_inside (r : Reader) (more : list input) :
  state r = IN_QUOTED_FIELD -> run r (EOL :: more) = run r more.
Proof.
  intros H. destruct r as [s f fs]. simpl in H. subst s. reflexivity.
Qed.

(** *** Lines and inputs *)

Lemma splitlines_nonempty (text : list ascii) :
  text <> [] -> splitlines text <> [].
Proof.
  destruct text as [| c rest]; [congruence |]. intros _. simpl.
  destruct (Ascii.eqb c LF); [discriminate |].
  destruct (Ascii.eqb c CR).
  - destruct rest as [| d rest']; [discriminate |].
    destruct (Ascii.eqb d LF); discriminate.
  - destruct (splitlines rest); discriminate.
Qed.

Lemma newline_false (c : ascii) :
  newline c = false -> Ascii.eqb c LF = false /\ Ascii.eqb c CR = false.
Proof. unfold newline. apply orb_false_iff. Qed.

Lemma feed_plain (c : ascii) (text : list ascii) :
  newline c = false -> text <> [] ->
  feed (splitlines (c :: text)) = Char c :: feed (splitlines text).
Proof.
  intros Hc Ht. apply newline_false in Hc. destruct Hc as [H1 H2].
  cbn [splitlines]. rewrite H1, H2.
  destruct (splitlines text) as [| line more] eqn:E.
  - apply splitlines_nonempty in Ht. contradiction.
  - reflexivity.
Qed.

Lemma feed_lf (text : list ascii) :
  feed (splitlines (LF :: text)) = Char LF :: EOL :: feed (splitlines text).
Proof. reflexivity. Qed.

Lemma feed_crlf (text : list ascii) :
  feed (splitlines (CR :: LF :: text))
  = Char CR :: Char LF :: EOL :: feed (splitlines text).
Proof. reflexivity. Qed.

Lemma feed_cr (d : ascii) (text : list ascii) :
  Ascii.eqb d LF = false ->
  feed (splitlines (CR :: d :: text))
  = Char CR :: EOL :: feed (splitlines (d :: text)).
Proof.
  intros H. cbn [splitlines].
  change (Ascii.eqb CR LF) with false. change (Ascii.eqb CR CR) with true.
  cbn iota. rewrite H. reflexivity.
Qed.

(** *** Inside quotes *)

Lemma run_quoted_char (fld : list ascii) (flds : list (list ascii))
    (c : ascii) (text : list ascii) :
  Ascii.eqb c quotechar = false -> text <> [] ->
  run (mkReader IN_QUOTED_FIELD fld flds) (feed (splitlines (c :: text)))
  = run (mkReader IN_QUOTED_FIELD (fld ++ [c]) flds) (feed (splitlines text)).
Proof.
  intros Hq Ht.
  assert (Hstep : forall more,
            run (mkReader IN_QUOTED_FIELD fld flds) (Char c :: more)
            = run (mkReader IN_QUOTED_FIELD (fld ++ [c]) flds) more).
  { intros more. apply run_char. unfold parse_process_char. cbn [state].
    rewrite Hq. reflexivity. }
  destruct (newline c) eqn:Hn.
  - unfold newline in Hn. apply orb_true_iff in Hn.
    destruct Hn as [Hn | Hn]; apply Ascii.eqb_eq in Hn; subst c.
    + rewrite feed_lf, Hstep. apply run_eol_inside. reflexivity.
    + destruct text as [| d text']; [congruence |].
      destruct (Ascii.eqb d LF) eqn:Hd.
      * apply Ascii.eqb_eq in Hd. subst d.
        rewrite feed_crlf, feed_lf, Hstep. reflexivity.
      * rewrite feed_cr, Hstep by assumption.
        apply run_eol_inside. reflexivity.
  - rewrite feed_plain, Hstep by assumption. reflexivity.
Qed.

Lemma run_quoted_quote (fld : list ascii) (flds : list (list ascii))
    (text : list ascii) :
  text <> [] ->
  run (mkReader IN_QUOTED_FIELD fld flds)
      (feed (splitlines (quotechar :: quotechar :: text)))
  = run (mkReader IN_QUOTED_FIELD (fld ++ [quotechar]) flds)
        (feed (splitlines text)).
Proof.
  intros Ht. rewrite !feed_plain by (reflexivity || congruence). reflexivity.
Qed.

Lemma copied_cons (c : ascii) (f : list ascii) :
  fst (join_append_data (c :: f))
  = (if Ascii.eqb c quotechar then [quotechar; c] else [c])
    ++ fst (join_append_data f).
Proof.
  simpl. destruct (join_append_data f) as [copied quoted].
  unfold special. destruct (Ascii.eqb c delimiter), (Ascii.eqb c quotechar);
    simpl; try reflexivity.
  destruct (Ascii.eqb c CR || (Ascii.eqb c LF || false)); reflexivity.
Qed.

Lemma run_quoted_body (f fld : list ascii) (flds : list (list ascii))
    (text : list ascii) :
  text <> [] ->
  run (mkReader IN_QUOTED_FIELD fld flds)
      (feed (splitlines (fst (join_append_data f) ++ text)))
  = run (mkReader IN_QUOTED_FIELD (fld ++ f) flds) (feed (splitlines text)).
Proof.
  intros Ht. revert fld. induction f as [| c f IH]; intros fld.
  - simpl. rewrite app_nil_r. reflexivity.
  - rewrite copied_cons, <- app_assoc.
    assert (Hne : fst (join_append_data f) ++ text <> []).
    { destruct (fst (join_append_data f)); simpl; congruence. }
    destruct (Ascii.eqb c quotechar) eqn:Hq.
    + apply Ascii.eqb_eq in Hq. subst c. cbn [app].
      rewrite run_quoted_quote by assumption.
      rewrite IH, <- app_assoc. reflexivity.
    + cbn [app]. rewrite run_quoted_char by assumption.
      rewrite IH, <- app_assoc. reflexivity.
Qed.

(** *** A field between quotes *)

Lemma run_open_quote (s : ParserState) (flds : list (list ascii))
    (text : list ascii) :
  before_field s -> text <> [] ->
  run (mkReader s [] flds) (feed (splitlines (quotechar :: text)))
  = run (mkReader IN_QUOTED_FIELD [] flds) (feed (splitlines text)).
Proof.
  intros Hs Ht. rewrite feed_plain by (reflexivity || assumption).
  destruct Hs as [-> | ->]; reflexivity.
Qed.

Lemma run_quoted_field_delimiter (s : ParserState) (f : list ascii)
    (flds : list (list ascii)) (text : list ascii) :
  before_field s -> text <> [] ->
  run (mkReader s [] flds)
      (feed (splitlines (quoted_field f ++ delimiter :: text)))
  = run (mkReader START_FIELD [] (flds ++ [f])) (feed (splitlines text)).
Proof.
  intros Hs Ht. unfold quoted_field. cbn [app].
  rewrite run_open_quote; [| exact Hs | destruct (fst (join_append_data f)); discriminate].
  rewrite <- app_assoc. cbn [app].
  rewrite run_quoted_body by discriminate.
  rewrite !feed_plain by (reflexivity || discriminate || assumption).
  reflexivity.
Qed.

Lemma run_quoted_field_end (s : ParserState) (f : list ascii)
    (flds : list (list ascii)) (text : list ascii) :
  before_field s ->
  run (mkReader s [] flds)
      (feed (splitlines (quoted_field f ++ lineterminator ++ text)))
  = emit (flds ++ [f]) (run parse_reset (feed (splitlines text))).
Proof.
  intros Hs. unfold quoted_field, lineterminator. cbn [app].
  rewrite run_open_quote; [| exact Hs | destruct (fst (join_append_data f)); discriminate].
  rewrite <- app_assoc. cbn [app].
  rewrite run_quoted_body by discriminate.
  rewrite feed_plain by (reflexivity || discriminate).
  rewrite feed_crlf. reflexivity.
Qed.

(** *** A field without quotes *)

Lemma special_false (c : ascii) :
  special c = false ->
  Ascii.eqb c delimiter = false /\ Ascii.eqb c quotechar = false
  /\ newline c = false.
Proof.
  unfold special, newline, lineterminator. cbn [existsb].
  intros H. apply orb_false_iff in H. destruct H as [Hab Hnl].
  apply orb_false_iff in Hab. destruct Hab as [Ha Hb].
  apply orb_false_iff in Hnl. destruct Hnl as [Hcr Hlf].
  apply orb_false_iff in Hlf. destruct Hlf as [Hlf _].
  rewrite Hlf, Hcr. auto.
Qed.

Lemma not_wanted (f : list ascii) :
  snd (join_append_data f) = false ->
  fst (join_append_data f) = f /\ Forall (fun c => special c = false) f.
Proof.
  induction f as [| c f IH]; simpl.
  - intros _. split; [reflexivity | constructor].
  - destruct (join_append_data f) as [copied quoted].
    destruct (special c) eqn:E; simpl; [discriminate |].
    intros H. destruct (IH H) as [IH1 IH2]. simpl in IH1.
    split; [congruence | constructor; assumption].
Qed.

Lemma run_plain_first (s : ParserState) (c : ascii)
    (flds : list (list ascii)) (text : list ascii) :
  before_field s -> special c = false -> text <> [] ->
  run (mkReader s [] flds) (feed (splitlines (c :: text)))
  = run (mkReader IN_FIELD [c] flds) (feed (splitlines text)).
Proof.
  intros Hs Hc Ht. apply special_false in Hc. destruct Hc as (Hd & Hq & Hn).
  rewrite feed_plain by assumption. apply run_char.
  destruct Hs as [-> | ->]; unfold parse_process_char, start_field;
    cbn [state]; rewrite Hn, Hq, Hd; reflexivity.
Qed.

Lemma run_plain_body (f fld : list ascii) (flds : list (list ascii))
    (text : list ascii) :
  Forall (fun c => special c = false) f -> text <> [] ->
  run (mkReader IN_FIELD fld flds) (feed (splitlines (f ++ text)))
  = run (mkReader IN_FIELD (fld ++ f) flds) (feed (splitlines text)).
Proof.
  intros Hf Ht. revert fld.
  induction Hf as [| c f Hc Hf IH]; intros fld.
  - simpl. rewrite app_nil_r. reflexivity.
  - apply special_false in Hc. destruct Hc as (Hd & Hq & Hn).
    cbn [app]. rewrite feed_plain; [| assumption |].
    + rewrite (run_char (mkReader IN_FIELD fld flds)
                        (mkReader IN_FIELD (fld ++ [c]) flds)).
      * rewrite IH, <- app_assoc. reflexivity.
      * unfold parse_process_char. cbn [state]. rewrite Hn, Hd. reflexivity.
    + destruct f; simpl; [assumption | discriminate].
Qed.

Lemma run_plain_field_delimiter (s : ParserState) (f : list ascii)
    (flds : list (list ascii)) (text : list ascii) :
  before_field s -> Forall (fun c => special c = false) f -> text <> [] ->
  run (mkReader s [] flds) (feed (splitlines (f ++ delimiter :: text)))
  = run (mkReader START_FIELD [] (flds ++ [f])) (feed (splitlines text)).
Proof.
  intros Hs Hf Ht. destruct Hf as [| c f Hc Hf].
  - cbn [app]. rewrite feed_plain by (reflexivity || assumption).
    destruct Hs as [-> | ->]; reflexivity.
  - cbn [app]. rewrite run_plain_first by (assumption || (destruct f; discriminate)).
    rewrite run_plain_body by (assumption || discriminate).
    rewrite feed_plain by (reflexivity || assumption). reflexivity.
Qed.

Lemma run_plain_field_end (s : ParserState) (f : list ascii)
    (flds : list (list ascii)) (text : list ascii) :
  before_field s -> s = START_FIELD \/ f <> [] ->
  Forall (fun c => special c = false) f ->
  run (mkReader s [] flds)
      (feed (splitlines (f ++ lineterminator ++ text)))
  = emit (flds ++ [f]) (run parse_reset (feed (splitlines text))).
Proof.
  intros Hs Hne Hf. unfold lineterminator. destruct Hf as [| c f Hc Hf].
  - destruct Hne as [-> | Hne]; [| congruence].
    cbn [app]. rewrite feed_crlf. reflexivity.
  - cbn [app]. rewrite run_plain_first by (assumption || (destruct f; discriminate)).
    rewrite run_plain_body by (assumption || discriminate).
    rewrite feed_crlf. reflexivity.
Qed.

(** *** A field as [join_append] writes it *)

Lemma written_field_nil (f : list ascii) : written_field f = [] -> f = [].
Proof.
  unfold written_field, quoted_field.
  destruct (snd (join_append_data f)); [discriminate | auto].
Qed.

Lemma join_append_written (n : nat) (f : list ascii) :
  join_append n f false
  = (if Nat.eqb n 0 then [] else [delimiter]) ++ written_field f.
Proof.
  unfold join_append, written_field, quoted_field.
  pose proof (not_wanted f) as H.
  destruct (join_append_data f) as [copied wanted]. simpl in *.
  destruct wanted; [reflexivity |].
  destruct (H eq_refl) as [-> _]. reflexivity.
Qed.

Lemma run_field_delimiter (s : ParserState) (f : list ascii)
    (flds : list (list ascii)) (text : list ascii) :
  before_field s -> text <> [] ->
  run (mkReader s [] flds)
      (feed (splitlines (written_field f ++ delimiter :: text)))
  = run (mkReader START_FIELD [] (flds ++ [f])) (feed (splitlines text)).
Proof.
  intros Hs Ht. unfold written_field.
  destruct (snd (join_append_data f)) eqn:E.
  - apply run_quoted_field_delimiter; assumption.
  - apply run_plain_field_delimiter; try assumption.
    apply not_wanted, E.
Qed.

Lemma run_field_end (s : ParserState) (f : list ascii)
    (flds : list (list ascii)) (text : list ascii) :
  before_field s -> s = START_FIELD \/ written_field f <> [] ->
  run (mkReader s [] flds)
      (feed (splitlines (written_field f ++ lineterminator ++ text)))
  = emit (flds ++ [f]) (run parse_reset (feed (splitlines text))).
Proof.
  intros Hs Hne. unfold written_field in *.
  destruct (snd (join_append_data f)) eqn:E.
  - apply run_quoted_field_end; assumption.
  - apply run_plain_field_end; try assumption.
    apply not_wanted, E.
Qed.

(** *** Records and files *)

Lemma run_row (rest : list (list ascii)) (f : list ascii) (s : ParserState)
    (flds : list (list ascii)) (n : nat) (text : list ascii) :
  before_field s ->
  s = START_FIELD \/ written_field f <> [] \/ rest <> [] ->
  run (mkReader s [] flds)
      (feed (splitlines
         (written_field f ++ join_all (S n) rest ++ lineterminator ++ text)))
  = emit (flds ++ f :: rest) (run parse_reset (feed (splitlines text))).
Proof.
  revert f s flds n. induction rest as [| g rest IH]; intros f s flds n Hs Hne.
  - cbn [join_all app]. apply run_field_end; [assumption |].
    destruct Hne as [H | [H | H]]; auto; congruence.
  - cbn [join_all]. rewrite join_append_written. cbn [Nat.eqb app].
    rewrite <- !app_assoc. cbn [app].
    rewrite run_field_delimiter.
    + rewrite IH.
      * rewrite <- app_assoc. reflexivity.
      * right. reflexivity.
      * left. reflexivity.
    + assumption.
    + unfold lineterminator.
      destruct (written_field g); [| discriminate].
      destruct (join_all (S (S n)) rest); discriminate.
Qed.

Lemma run_writerow (row : list (list ascii)) (text : list ascii) :
  run parse_reset (feed (splitlines (writerow row ++ text)))
  = emit row (run parse_reset (feed (splitlines text))).
Proof.
  unfold writerow. destruct row as [| f rest].
  - cbn [join_all List.length Nat.ltb Nat.leb andb app].
    unfold lineterminator. cbn [app]. rewrite feed_crlf. reflexivity.
  - cbn [join_all]. rewrite join_append_written. cbn [Nat.eqb app List.length].
    change (Nat.ltb 0 (S (List.length rest))) with true. cbn [andb].
    destruct (Nat.eqb (List.length (written_field f ++ join_all 1 rest)) 0)
      eqn:E.
    + apply Nat.eqb_eq, length_zero_iff_nil, app_eq_nil in E.
      destruct E as [E1 E2]. apply written_field_nil in E1. subst f.
      destruct rest as [| g rest].
      * rewrite <- app_assoc.
        apply (run_quoted_field_end START_RECORD [] []). left. reflexivity.
      * cbn [join_all] in E2. rewrite join_append_written in E2.
        discriminate.
    + rewrite <- !app_assoc.
      apply (run_row rest f START_RECORD [] 0); [left; reflexivity |].
      right. destruct (written_field f) eqn:Ew; [| left; discriminate].
      destruct rest; [| right; discriminate].
      discriminate.
Qed.

Lemma run_writerows (data : list (list (list ascii))) :
  run parse_reset (feed (splitlines (writerows data))) = Ok data.
Proof.
  induction data as [| row more IH]; [reflexivity |].
  unfold writerows. cbn [flat_map]. fold (writerows more).
  rewrite run_writerow, IH. reflexivity.
Qed.

Lemma map_map_id (data : list (list string)) :
  map (map string_of_list_ascii) (map (map list_ascii_of_string) data) = data.
Proof.
  rewrite map_map. rewrite <- (map_id data) at 2. apply map_ext.
  intros row. rewrite map_map. rewrite <- (map_id row) at 2. apply map_ext.
  apply string_of_list_ascii_of_string.
Qed.

(** C8.  Whatever the header row and the data rows, reading the text
    that [export_to_csv] writes for them gives back the header row
    followed by the data rows, every cell as it was. *)
Theorem export_to_csv_round_trip (header : list string)
    (data_rows : list (list string)) :
  csv_reader (export_to_csv (header :: data_rows)) = Ok (header :: data_rows).
Proof.
  unfold csv_reader, export_to_csv.
  rewrite list_ascii_of_string_of_list_ascii, read_records_run, run_writerows.
  rewrite map_map_id. reflexivity.
Qed.

(** * More of the code *)

(** ** Ids in the stores that the operations build *)

Lemma StronglySorted_snoc (l : list Z) (y : Z) :
  StronglySorted Z.lt l -> (forall x, In x l -> x < y) ->
  StronglySorted Z.lt (l ++ [y]).
Proof.
  induction 1 as [| a l Hs IH Hall]; intros Hy; simpl.
  - constructor; constructor.
  - constructor.
    + apply IH. intros x Hx. apply Hy. right. exact Hx.
    + rewrite Forall_forall in Hall |- *. intros x Hx.
      apply in_app_or in Hx. destruct Hx as [Hx | [<- | []]].
      * apply Hall, Hx.
      * apply Hy. left. reflexivity.
Qed.

Lemma StronglySorted_lt_NoDup (l : list Z) : StronglySorted Z.lt l -> NoDup l.
Proof.
  induction 1 as [| a l Hs IH Hall]; constructor; [| exact IH].
  intros Hin. rewrite Forall_forall in Hall. specialize (Hall a Hin). lia.
Qed.

Lemma max_rowid_nonneg (ids : list Z) : 0 <= max_rowid ids.
Proof. induction ids as [| i ids IH]; simpl; lia. Qed.

Lemma new_rowid_bounds {R : Type} (rid : R -> Z) (t : Table R) :
  1 <= new_rowid rid t /\ seq t < new_rowid rid t.
Proof.
  unfold new_rowid. pose proof (max_rowid_nonneg (map rid (rows t))). lia.
Qed.

Lemma ascending_weaken {R : Type} (rid : R -> Z) (l : list R) (s s' : Z) :
  s <= s' -> ascending rid (mkTable l s) -> ascending rid (mkTable l s').
Proof.
  intros Hle [Hs Hb]. split; [exact Hs |]. simpl in *.
  rewrite Forall_forall in Hb |- *. intros i Hi. specialize (Hb i Hi). lia.
Qed.

Lemma insert_ascending {R : Type} (rid : R -> Z) (mk : Z -> R) (t : Table R) :
  (forall v, rid (mk v) = v) ->
  ascending rid t -> ascending rid (insert rid mk t).
Proof.
  intros Hmk [Hs Hb]. unfold insert. split; cbn [rows seq].
  - rewrite map_app. simpl. rewrite Hmk. apply StronglySorted_snoc; [exact Hs |].
    intros x Hx. apply in_map_iff in Hx. destruct Hx as (r & <- & Hr).
    apply new_rowid_above, Hr.
  - rewrite map_app. simpl. rewrite Hmk. apply Forall_app. split.
    + rewrite Forall_forall in Hb |- *. intros i Hi. specialize (Hb i Hi).
      pose proof (new_rowid_bounds rid t). lia.
    + constructor; [| constructor].
      pose proof (new_rowid_bounds rid t). lia.
Qed.

Lemma insert_aid_type_ascending (name : string) (t : Table AidType) :
  ascending t_id t -> ascending t_id (insert_aid_type name t).
Proof.
  intros Hasc. unfold insert_aid_type, insert_or_ignore.
  destruct (existsb _ (rows t)).
  - destruct t as [l s]. apply ascending_weaken with (s := s); [| exact Hasc].
    pose proof (new_rowid_bounds t_id (mkTable l s)). simpl in *. lia.
  - apply (insert_ascending t_id (fun v => mkAidType v name));
      [reflexivity | exact Hasc].
Qed.

Lemma init_db_well_formed (db : DB) : well_formed db -> well_formed (init_db db).
Proof.
  intros [Hp Ht Hr Hd Hn]. constructor; try assumption.
  - unfold init_db. cbn [aid_types].
    generalize (aid_types db) Ht. generalize seed_aid_names.
    induction l as [| n l IH]; intros t Hasc; simpl; [exact Hasc |].
    apply IH, insert_aid_type_ascending, Hasc.
  - unfold unique_aid_names, init_db. cbn [aid_types].
    apply seeded_unique, Hn.
Qed.

Lemma add_person_well_formed (name area : string) (age : option Z)
    (db db' : DB) :
  well_formed db -> add_person name area age db = Ok db' -> well_formed db'.
Proof.
  intros [Hp Ht Hr Hd Hn]. unfold add_person.
  destruct (bind_optional_int (age_or_none age)) as [a |]; [| discriminate].
  intros [= <-]. constructor; try assumption.
  cbn [people]. apply (insert_ascending p_id); [reflexivity | exact Hp].
Qed.

Lemma add_request_well_formed (pid : Z) (aid_type req_date : string)
    (db db' : DB) :
  well_formed db -> add_request pid aid_type req_date db = Ok db' ->
  well_formed db'.
Proof.
  intros [Hp Ht Hr Hd Hn]. unfold add_request.
  destruct (bind_int pid); [| discriminate].
  intros [= <-]. constructor; try assumption.
  cbn [aid_requests]. apply (insert_ascending r_id); [reflexivity | exact Hr].
Qed.

Lemma mark_delivered_well_formed (rid : Z) (item d_date : string)
    (db db' : DB) :
  well_formed db -> mark_delivered rid item d_date db = Ok db' ->
  well_formed db'.
Proof.
  intros [Hp Ht Hr Hd Hn]. unfold mark_delivered.
  destruct (bind_int rid); [| discriminate].
  intros [= <-]. constructor; try assumption.
  cbn [aid_delivered]. apply (insert_ascending d_id); [reflexivity | exact Hd].
Qed.

Lemma on_add_step (lim : option nat) (name area : string) (age : pystr)
    (db : DB) :
  snd (on_add lim name area age db) = db
  \/ exists a, add_person name area a db = Ok (snd (on_add lim name area age db)).
Proof.
  unfold on_add.
  destruct (String.eqb name "" || String.eqb area "")%bool; [left; reflexivity |].
  destruct (nonempty age && negb (isdigit age))%bool;
    [left; reflexivity |].
  destruct (if nonempty age then
              match py_int lim age with
              | Ok v => Ok (Some v)
              | Raise e => Raise e
              end
            else Ok None) as [a | e]; [| left; reflexivity].
  destruct (add_person name area a db) as [db' |] eqn:E; [| left; reflexivity].
  right. exists a. exact E.
Qed.

Lemma step_well_formed (db db' : DB) :
  step db db' -> well_formed db -> well_formed db'.
Proof.
  intros Hstep Hwf. destruct Hstep.
  - apply init_db_well_formed, Hwf.
  - eapply add_person_well_formed; eassumption.
  - eapply add_request_well_formed; eassumption.
  - eapply mark_delivered_well_formed; eassumption.
  - destruct (on_add_step lim name area age db) as [-> | [a Ha]];
      [exact Hwf | eapply add_person_well_formed; eassumption].
Qed.

Lemma empty_db_well_formed : well_formed empty_db.
Proof.
  constructor; try (split; simpl; constructor). constructor.
Qed.

Lemma well_formed_unique_ids (db : DB) : well_formed db -> unique_ids db.
Proof.
  intros [[Hp _] _ [Hr _] [Hd _] _].
  constructor; apply StronglySorted_lt_NoDup; assumption.
Qed.

(** X1.  In every store reached from the empty one by [init_db],
    [add_person], [add_request], [mark_delivered] and the handler
    [PeopleTab.on_add], the ids of each table go strictly up with the
    rows, lie between 1 and the table's sequence value, no two rows of a
    table share an id, and no aid name is stored twice. *)
Theorem reachable_well_formed (db : DB) :
  reachable db -> well_formed db /\ unique_ids db.
Proof.
  intros Hreach.
  assert (Hwf : well_formed db).
  { induction Hreach as [| db db' _ IH Hstep].
    - apply empty_db_well_formed.
    - eapply step_well_formed; eassumption. }
  split; [exact Hwf | apply well_formed_unique_ids, Hwf].
Qed.

Lemma reachable_well_formed_witness :
  well_formed (init_db empty_db) /\ unique_ids (init_db empty_db).
Proof.
  apply (reachable_well_formed (init_db empty_db)).
  apply reachable_step with (db := empty_db).
  - apply reachable_empty.
  - apply step_init_db.
Defined.

(** ** The people list *)

Lemma fold_insert_desc_largest {A : Type} (key : A -> Z) (x : A)
    (l s : list A) :
  (forall y, In y l -> key y < key x) ->
  fold_right (insert_desc key) (x :: s) l
  = x :: fold_right (insert_desc key) s l.
Proof.
  induction l as [| y l IH]; intros Hlt; simpl; [reflexivity |].
  rewrite IH by (intros z Hz; apply Hlt; right; exact Hz).
  simpl. replace (key y <? key x) with true; [reflexivity |].
  symmetry. apply Z.ltb_lt, Hlt. left. reflexivity.
Qed.

Lemma order_by_desc_snoc {A : Type} (key : A -> Z) (l : list A) (x : A) :
  (forall y, In y l -> key y < key x) ->
  order_by_desc key (l ++ [x]) = x :: order_by_desc key l.
Proof.
  intros Hlt. unfold order_by_desc. rewrite fold_right_app. simpl.
  apply fold_insert_desc_largest, Hlt.
Qed.

Lemma order_by_desc_ascending {A : Type} (key : A -> Z) (l : list A) :
  StronglySorted Z.lt (map key l) -> order_by_desc key l = rev l.
Proof.
  induction l as [| x l IH] using rev_ind; intros Hs; [reflexivity |].
  rewrite rev_unit, order_by_desc_snoc.
  - f_equal. apply IH. rewrite map_app in Hs.
    clear IH. revert Hs. generalize (map key l) as ks.
    induction ks as [| k ks IHk]; intros Hs; [constructor |].
    simpl in Hs. inversion Hs as [| ? ? Hs' Hall]; subst.
    constructor; [apply IHk, Hs' |].
    rewrite Forall_forall in Hall |- *. intros z Hz. apply Hall.
    apply in_or_app. left. exact Hz.
  - intros y Hy. rewrite map_app in Hs. simpl in Hs.
    apply (in_map key) in Hy. revert Hs Hy. generalize (map key l) as ks.
    induction ks as [| k ks IHk]; intros Hs Hy; [contradiction |].
    simpl in Hs. inversion Hs as [| ? ? Hs' Hall]; subst.
    destruct Hy as [<- | Hy].
    + rewrite Forall_forall in Hall. apply Hall.
      apply in_or_app. right. left. reflexivity.
    + apply IHk; assumption.
Qed.

(** X2.  In a store whose people ids go up with the rows, [list_people]
    is the table read backwards: one row (id, name, area, age) for each
    stored person, the person registered last first, with the empty text
    in place of an age that is NULL. *)
Theorem list_people_newest_first (db : DB) :
  well_formed db ->
  list_people db = rev (map person_row (rows (people db))).
Proof.
  intros [[Hs _] _ _ _ _]. unfold list_people.
  rewrite order_by_desc_ascending by exact Hs.
  rewrite map_rev. reflexivity.
Qed.

Lemma list_people_newest_first_witness :
  list_people sample_db = rev (map person_row (rows (people sample_db))).
Proof.
  apply list_people_newest_first.
  constructor;
    try (split; simpl;
         repeat (constructor; try lia);
         repeat (constructor; try (simpl; lia))).
  unfold unique_aid_names. simpl. distinct_ids.
Defined.

Lemma add_person_prepends (name area : string) (age : option Z)
    (db db' : DB) :
  add_person name area age db = Ok db' ->
  exists v,
    (forall row, In row (list_people db) -> fst (fst (fst row)) < v)
    /\ list_people db'
       = person_row (mkPerson v name area (age_or_none age)) :: list_people db.
Proof.
  unfold add_person.
  destruct (bind_optional_int (age_or_none age)) as [a |] eqn:E; [| discriminate].
  assert (Ha : a = age_or_none age).
  { unfold bind_optional_int in E. destruct (age_or_none age) as [z |].
    - unfold bind_int in E. destruct (fits_int64 z); [| discriminate].
      injection E as <-. reflexivity.
    - injection E as <-. reflexivity. }
  subst a. intros [= <-].
  exists (new_rowid p_id (people db)). split.
  - intros row Hrow. unfold list_people in Hrow.
    apply in_map_iff in Hrow. destruct Hrow as (p & <- & Hp).
    apply order_by_desc_In in Hp. simpl. apply new_rowid_above, Hp.
  - unfold list_people, insert. cbn [people rows].
    rewrite order_by_desc_snoc; [reflexivity |].
    intros p Hp. simpl. apply new_rowid_above, Hp.
Qed.

(** X3.  After a successful [add_person], [list_people] is what it was
    before with one row put in front: the new person, under an id greater
    than every id listed before, with the age as given, or the empty text
    when the age was omitted or 0. *)
Theorem add_person_listed_first (name area : string) (age : option Z)
    (db db' : DB) :
  add_person name area age db = Ok db' ->
  exists v,
    (forall row, In row (list_people db) -> fst (fst (fst row)) < v)
    /\ list_people db'
       = person_row (mkPerson v name area (age_or_none age)) :: list_people db.
Proof. apply add_person_prepends. Qed.

Lemma add_person_listed_first_witness :
  exists v,
    (forall row, In row (list_people sample_db) -> fst (fst (fst row)) < v)
    /\ list_people
         (with_person sample_db (mkPerson 3 "Mina" "East" None))
       = person_row (mkPerson v "Mina" "East" None) :: list_people sample_db.
Proof.
  apply (add_person_listed_first "Mina" "East" (Some 0) sample_db).
  reflexivity.
Defined.

Lemma on_add_runs_add_person (lim : option nat) (name area : string)
    (age : pystr) (a : option Z) (db : DB) :
  name <> "" -> area <> "" -> age_entry lim age a ->
  on_add lim name area age db
  = match add_person name area a db with
    | Ok db' => (Added, db')
    | Raise e => (Uncaught e, db)
    end.
Proof.
  intros Hn Ha He. unfold on_add.
  apply string_eqb_empty in Hn, Ha. rewrite Hn, Ha. cbn [orb].
  destruct He as [| s v Hs Hlim Hval Hv]; [reflexivity |].
  pose proof (decimal_value_digits s 0 v (Z.le_refl 0) Hval) as [Hdig _].
  apply nonempty_true in Hs. unfold isdigit. rewrite Hs, Hdig.
  cbn [negb andb]. unfold py_int. rewrite Hlim, Hval.
  destruct s; [discriminate | reflexivity].
Qed.

(** X4.  When [PeopleTab.on_add] accepts its three texts, the people list
    it refreshes afterwards shows the new person first, followed by the
    rows shown before. *)
Theorem on_add_listed_first (lim : option nat) (name area : string)
    (age : pystr) (a : option Z) (db : DB) :
  name <> "" -> area <> "" -> age_entry lim age a ->
  exists v,
    fst (on_add lim name area age db) = Added
    /\ list_people (snd (on_add lim name area age db))
       = person_row (mkPerson v name area (age_or_none a)) :: list_people db.
Proof.
  intros Hn Ha He.
  destruct (add_person_inserts name area a db) as (w & _ & Hw).
  { intros u Hu. apply age_or_none_range in Hu. destruct Hu as [-> _].
    inversion He as [| s z Hs Hlim Hval Hz]; subst.
    pose proof (decimal_value_digits age 0 u (Z.le_refl 0) Hval) as [_ Hpos].
    lia. }
  rewrite (on_add_runs_add_person lim name area age a db Hn Ha He), Hw.
  cbn [fst snd].
  destruct (add_person_prepends name area a db _ Hw) as (x & _ & Hx).
  exists x. split; [reflexivity | exact Hx].
Qed.

Lemma on_add_listed_first_witness :
  exists v,
    fst (on_add (Some 4300%nat) "Mina" "East" (codepoints "0") sample_db)
    = Added
    /\ list_people
         (snd (on_add (Some 4300%nat) "Mina" "East" (codepoints "0") sample_db))
       = person_row (mkPerson v "Mina" "East" None) :: list_people sample_db.
Proof.
  apply (on_add_listed_first (Some 4300%nat) "Mina" "East" (codepoints "0")
           (Some 0)).
  - discriminate.
  - discriminate.
  - apply age_numeral; [discriminate | reflexivity | reflexivity | reflexivity].
Defined.

(** ** Requests and deliveries, one after the other *)

Lemma insert_desc_front {A : Type} (key : A -> Z) (x : A) (l : list A) :
  (forall z, In z l -> key z <= key x) -> insert_desc key x l = x :: l.
Proof.
  destruct l as [| y l]; intros H; [reflexivity |]. simpl.
  replace (key x <? key y) with false; [reflexivity |].
  symmetry. apply Z.ltb_ge, H. left. reflexivity.
Qed.

Lemma filter_insert_desc {A : Type} (key : A -> Z) (f : A -> bool) (x : A)
    (l : list A) :
  StronglySorted (key_ge key) l ->
  filter f (insert_desc key x l)
  = if f x then insert_desc key x (filter f l) else filter f l.
Proof.
  induction 1 as [| y l Hs IH Hall]; simpl.
  - destruct (f x); reflexivity.
  - destruct (key x <? key y) eqn:E; simpl.
    + rewrite IH. destruct (f y), (f x); simpl; try rewrite E; reflexivity.
    + apply Z.ltb_ge in E. destruct (f x); [| reflexivity].
      symmetry. apply insert_desc_front. intros z Hz.
      assert (Hin : In z (y :: l)).
      { destruct (f y); [| right; apply filter_In in Hz; tauto].
        destruct Hz as [<- | Hz]; [left; reflexivity |].
        right. apply filter_In in Hz. tauto. }
      destruct Hin as [<- | Hin]; [exact E |].
      rewrite Forall_forall in Hall. specialize (Hall z Hin).
      unfold key_ge in Hall. lia.
Qed.

Lemma order_by_desc_filter {A : Type} (key : A -> Z) (f : A -> bool)
    (l : list A) :
  order_by_desc key (filter f l) = filter f (order_by_desc key l).
Proof.
  induction l as [| x l IH]; [reflexivity |]. simpl.
  rewrite filter_insert_desc by apply order_by_desc_sorted.
  destruct (f x); simpl; rewrite IH; reflexivity.
Qed.

Lemma flat_map_ext_in {A B : Type} (f g : A -> list B) (l : list A) :
  (forall x, In x l -> f x = g x) -> flat_map f l = flat_map g l.
Proof.
  induction l as [| x l IH]; intros H; simpl; [reflexivity |].
  rewrite (H x) by (left; reflexivity). f_equal. apply IH.
  intros y Hy. apply H. right. exact Hy.
Qed.

Lemma from_requests_add_request (db : DB) (r : AidRequest) (s : Z) :
  from_requests
    (mkDB (people db) (aid_types db)
          (mkTable (rows (aid_requests db) ++ [r]) s) (aid_delivered db))
  = from_requests db
    ++ flat_map (fun p => map (mkJoined r p) (left_join_delivered db r))
                (persons_of db (r_person_id r)).
Proof.
  unfold from_requests. cbn [aid_requests rows]. rewrite flat_map_app.
  simpl. rewrite app_nil_r. reflexivity.
Qed.

(** X5.  In a store with unique ids in which every delivery references a
    stored request, [add_request] for a stored person puts the new
    request in front of [list_pending_requests], with that person's name
    and area, and leaves the rest of the list as it was. *)
Theorem add_request_listed_first (pid : Z) (aid_type req_date : string)
    (p : Person) (db db' : DB) :
  unique_ids db -> deliveries_referenced db ->
  In p (rows (people db)) -> p_id p = pid ->
  add_request pid aid_type req_date db = Ok db' ->
  exists v,
    (forall row, In row (list_pending_requests db) -> first_column row < v)
    /\ list_pending_requests db'
       = (v, p_name p, p_area p, aid_type, req_date)
         :: list_pending_requests db.
Proof.
  intros [Hp Hr _] Hrefs Hin Hid. unfold add_request, bind_int.
  destruct (fits_int64 pid); [| discriminate]. intros [= <-].
  set (v := new_rowid r_id (aid_requests db)).
  assert (Hkeys : forall j, In j (filter d_id_is_null (from_requests db)) ->
                            r_id (j_r j) < v).
  { intros j Hj. apply filter_In in Hj. destruct Hj as [Hj _].
    apply in_from_requests in Hj. destruct Hj as (Hjr & _).
    apply (new_rowid_above r_id), Hjr. }
  exists v. split.
  - intros row Hrow. unfold list_pending_requests, pending_rows in Hrow.
    apply in_map_iff in Hrow. destruct Hrow as (j & <- & Hj).
    apply order_by_desc_In in Hj. apply Hkeys, Hj.
  - unfold list_pending_requests, pending_rows, insert. fold v.
    rewrite from_requests_add_request. cbn [r_person_id].
    unfold persons_of. rewrite <- Hid.
    rewrite (filter_key_found p_id _ p Hp Hin). simpl flat_map.
    rewrite app_nil_r.
    assert (Hnone : deliveries_of db v = []).
    { apply deliveries_of_nil. intros d Hd Heq.
      apply Hrefs in Hd. rewrite Heq in Hd.
      apply (new_rowid_fresh r_id (aid_requests db)). exact Hd. }
    unfold left_join_delivered. cbn [r_id]. rewrite Hnone.
    rewrite filter_app. simpl filter.
    rewrite order_by_desc_snoc by exact Hkeys. reflexivity.
Qed.

Lemma add_request_listed_first_witness :
  exists v,
    (forall row, In row (list_pending_requests sample_db) ->
                 first_column row < v)
    /\ list_pending_requests
         (mkDB (people sample_db) (aid_types sample_db)
               (insert r_id (fun v => mkAidRequest v 2 "Food" "2024-01-14")
                       (aid_requests sample_db))
               (aid_delivered sample_db))
       = (v, "Ravi", "South", "Food", "2024-01-14")
         :: list_pending_requests sample_db.
Proof.
  apply (add_request_listed_first 2 "Food" "2024-01-14"
           (mkPerson 2 "Ravi" "South" None) sample_db).
  - constructor; simpl; distinct_ids.
  - intros d [<- | [<- | []]]; simpl; auto.
  - simpl. auto.
  - reflexivity.
  - reflexivity.
Defined.

Lemma deliveries_of_mark_delivered (db : DB) (d : AidDelivered) (s rid : Z) :
  deliveries_of
    (mkDB (people db) (aid_types db) (aid_requests db)
          (mkTable (rows (aid_delivered db) ++ [d]) s)) rid
  = deliveries_of db rid ++ (if d_request_id d =? rid then [d] else []).
Proof.
  unfold deliveries_of. cbn [aid_delivered rows]. rewrite filter_app.
  simpl. destruct (d_request_id d =? rid); reflexivity.
Qed.

Lemma pending_after_delivery (db : DB) (d : AidDelivered) (s : Z) :
  filter d_id_is_null
    (from_requests
       (mkDB (people db) (aid_types db) (aid_requests db)
             (mkTable (rows (aid_delivered db) ++ [d]) s)))
  = filter (fun j => negb (r_id (j_r j) =? d_request_id d))
           (filter d_id_is_null (from_requests db)).
Proof.
  unfold from_requests. cbn [aid_requests people].
  rewrite !filter_flat_map. apply flat_map_ext_in. intros r _.
  fold (persons_of db (r_person_id r)).
  change (persons_of
            (mkDB (people db) (aid_types db) (aid_requests db)
                  (mkTable (rows (aid_delivered db) ++ [d]) s))
            (r_person_id r))
    with (persons_of db (r_person_id r)).
  rewrite !filter_flat_map. apply flat_map_ext_in. intros p _.
  unfold left_join_delivered. rewrite deliveries_of_mark_delivered.
  destruct (d_request_id d =? r_id r) eqn:E.
  - apply Z.eqb_eq in E.
    assert (Hsome : exists d0 ds, deliveries_of db (r_id r) ++ [d] = d0 :: ds).
    { destruct (deliveries_of db (r_id r)); simpl; eauto. }
    destruct Hsome as (d0 & ds & ->).
    rewrite delivered_rows_not_null. symmetry. apply filter_none.
    intros j Hj. apply filter_In in Hj. destruct Hj as [Hj _].
    apply in_map_iff in Hj. destruct Hj as (o & <- & _). simpl.
    rewrite E, Z.eqb_refl. reflexivity.
  - rewrite app_nil_r. symmetry. apply filter_all.
    intros j Hj. apply filter_In in Hj. destruct Hj as [Hj _].
    assert (Hr : j_r j = r).
    { destruct (deliveries_of db (r_id r));
        apply in_map_iff in Hj; destruct Hj as (o & <- & _); reflexivity. }
    rewrite Hr. rewrite Z.eqb_sym, E. reflexivity.
Qed.

(** X6.  A successful [mark_delivered] for the request id [rid] takes the
    rows of that id out of [list_pending_requests] and leaves every other
    row where it was. *)
Theorem mark_delivered_leaves_pending (rid : Z) (item d_date : string)
    (db db' : DB) :
  mark_delivered rid item d_date db = Ok db' ->
  list_pending_requests db'
  = filter (fun row => negb (first_column row =? rid))
           (list_pending_requests db).
Proof.
  unfold mark_delivered, bind_int.
  destruct (fits_int64 rid); [| discriminate]. intros [= <-].
  unfold list_pending_requests, pending_rows, insert.
  rewrite pending_after_delivery. cbn [d_request_id].
  rewrite order_by_desc_filter, filter_map_swap. reflexivity.
Qed.

Lemma mark_delivered_leaves_pending_witness :
  list_pending_requests
    (mkDB (people sample_db) (aid_types sample_db) (aid_requests sample_db)
          (insert d_id (fun v => mkAidDelivered v 3 "Tent" "2024-01-15")
                  (aid_delivered sample_db)))
  = filter (fun row => negb (first_column row =? 3))
           (list_pending_requests sample_db).
Proof.
  apply (mark_delivered_leaves_pending 3 "Tent" "2024-01-15" sample_db).
  reflexivity.
Defined.

(** X7.  After a successful [mark_delivered] for a stored request of a
    stored person, [search] with the status [Delivered] has a row for
    that request whose last column is the delivery date just given, and
    [list_pending_requests] has no row of that request. *)
Theorem mark_delivered_shows_in_search (r : AidRequest) (p : Person)
    (item d_date : string) (db db' : DB) :
  In r (rows (aid_requests db)) -> In p (rows (people db)) ->
  p_id p = r_person_id r ->
  mark_delivered (r_id r) item d_date db = Ok db' ->
  In (p_name p, p_area p, r_aid_type r, r_request_date r, d_date)
     (search "" "Delivered" db')
  /\ (forall row, In row (list_pending_requests db') ->
                  first_column row <> r_id r).
Proof.
  intros Hr Hp Hid. unfold mark_delivered, bind_int.
  destruct (fits_int64 (r_id r)); [| discriminate]. intros [= <-].
  set (d := mkAidDelivered (new_rowid d_id (aid_delivered db)) (r_id r)
                           item d_date).
  split.
  - unfold search. apply in_map_iff. exists (mkJoined r p (Some d)).
    split; [reflexivity |].
    apply in_search_rows. split; [| split; reflexivity].
    unfold joins. cbn [j_r j_p j_d aid_requests people aid_delivered].
    repeat split; try assumption.
    unfold insert. cbn [rows]. apply in_or_app. right. left. reflexivity.
  - intros row Hrow Heq. apply in_list_pending_requests in Hrow.
    destruct Hrow as (r' & p' & _ & _ & _ & Hu & ->).
    unfold first_column in Heq. simpl in Heq.
    apply (Hu d).
    + unfold insert. cbn [aid_delivered rows]. apply in_or_app.
      right. left. reflexivity.
    + simpl. symmetry. exact Heq.
Qed.

Lemma mark_delivered_shows_in_search_witness :
  In ("Asha", "North", "Shelter", "2024-01-12", "2024-01-15")
     (search "" "Delivered"
        (mkDB (people sample_db) (aid_types sample_db)
              (aid_requests sample_db)
              (insert d_id (fun v => mkAidDelivered v 3 "Tent" "2024-01-15")
                      (aid_delivered sample_db)))).
Proof.
  apply (mark_delivered_shows_in_search
           (mkAidRequest 3 1 "Shelter" "2024-01-12")
           (mkPerson 1 "Asha" "North" (Some 34)) "Tent" "2024-01-15"
           sample_db).
  - simpl. auto.
  - simpl. auto.
  - reflexivity.
  - reflexivity.
Defined.

(** X8.  [search] with the empty area filter and the status [Pending]
    shows the requests of [list_pending_requests], in the same order:
    dropping the id from the rows of the one and the last column from
    the rows of the other gives the same list, and every last column
    dropped is the text PENDING. *)
Theorem search_pending_is_pending_list (db : DB) :
  map (fun row => fst row) (search "" "Pending" db)
  = map (fun row => let '(_, name, area, aid, day) := row in
                    (name, area, aid, day))
        (list_pending_requests db)
  /\ Forall (fun row => snd row = "PENDING") (search "" "Pending" db).
Proof.
  assert (Hrows : search_rows "" "Pending" db = pending_rows db).
  { unfold search_rows, pending_rows. f_equal. }
  unfold search, list_pending_requests. rewrite Hrows. split.
  - rewrite !map_map. reflexivity.
  - apply Forall_forall. intros row Hrow. apply in_map_iff in Hrow.
    destruct Hrow as (j & <- & Hj). unfold pending_rows in Hj.
    apply order_by_desc_In, filter_In in Hj. destruct Hj as [_ Hnull].
    unfold d_id_is_null in Hnull. unfold search_select, status_column.
    simpl. destruct (j_d j); [discriminate | reflexivity].
Qed.

(** ** The counters of the reports *)

Lemma pending_keys_are_request_ids (db : DB) (k : Z) :
  In k (map (fun j => r_id (j_r j)) (filter d_id_is_null (from_requests db)))
  -> In k (map r_id (rows (aid_requests db))) /\ undelivered db k.
Proof.
  intros Hk. apply in_map_iff in Hk. destruct Hk as (j & <- & Hj).
  apply filter_In in Hj. destruct Hj as [Hj Hnull].
  apply in_from_requests in Hj. destruct Hj as (Hr & _ & _ & Hd).
  unfold d_id_is_null in Hnull. destruct (j_d j); [discriminate |].
  split; [apply in_map, Hr | exact Hd].
Qed.

(** X9.  With unique ids, the counter of pending requests never exceeds
    the counter of requests.  When, besides, every request names a
    stored person, every delivery references a stored request and no
    request has two deliveries, the counters of pending requests and of
    deliveries add up to the counter of requests. *)
Theorem report_counters_add_up (db : DB) :
  unique_ids db ->
  count_pending db <= count_requests db
  /\ ((forall r, In r (rows (aid_requests db)) -> person_exists db r) ->
      deliveries_referenced db ->
      NoDup (map d_request_id (rows (aid_delivered db))) ->
      count_pending db + count_deliveries db = count_requests db).
Proof.
  intros Huniq.
  pose proof (pending_keys_unique db Huniq) as Hnd.
  assert (Hlen : count_pending db
                 = Z.of_nat (List.length
                     (map (fun j => r_id (j_r j))
                          (filter d_id_is_null (from_requests db))))).
  { unfold count_pending, list_pending_requests, pending_rows.
    rewrite !length_map.
    rewrite (Permutation_length (order_by_desc_perm _ _)). reflexivity. }
  split.
  - rewrite Hlen. unfold count_requests.
    rewrite <- (length_map r_id (rows (aid_requests db))).
    apply inj_le, NoDup_incl_length; [exact Hnd |].
    intros k Hk. apply pending_keys_are_request_ids, Hk.
  - intros Hpersons Hrefs Hone.
    rewrite Hlen. unfold count_deliveries, count_requests.
    rewrite <- (length_map d_request_id (rows (aid_delivered db))).
    rewrite <- (length_map r_id (rows (aid_requests db))).
    rewrite <- Nat2Z.inj_add, <- length_app. f_equal.
    apply Permutation_length, NoDup_Permutation.
    + apply NoDup_app; [exact Hnd | exact Hone |].
      intros k Hk Hk'. apply pending_keys_are_request_ids in Hk.
      destruct Hk as [_ Hu]. apply in_map_iff in Hk'.
      destruct Hk' as (d & Hd & Hin). exact (Hu d Hin Hd).
    + destruct Huniq as [_ Hr _]. exact Hr.
    + intros k. rewrite in_app_iff. split.
      * intros [Hk | Hk]; [apply pending_keys_are_request_ids, Hk |].
        apply in_map_iff in Hk. destruct Hk as (d & <- & Hd).
        apply Hrefs, Hd.
      * intros Hk. apply in_map_iff in Hk. destruct Hk as (r & <- & Hr).
        destruct (deliveries_of db (r_id r)) as [| d ds] eqn:E.
        -- left. apply deliveries_of_nil in E.
           destruct (Hpersons r Hr) as (p & Hp & Hid).
           apply in_map_iff. exists (mkJoined r p None).
           split; [reflexivity |]. apply filter_In. split; [| reflexivity].
           apply in_from_requests. unfold joins. simpl. auto.
        -- right. assert (Hd : In d (deliveries_of db (r_id r)))
             by (rewrite E; left; reflexivity).
           apply in_deliveries_of in Hd. destruct Hd as [Hd <-].
           apply in_map, Hd.
Qed.

Lemma report_counters_add_up_witness :
  count_pending stray_db <= count_requests stray_db.
Proof.
  destruct (report_counters_add_up stray_db) as [H _].
  - constructor; simpl; distinct_ids.
  - exact H.
Defined.

Lemma areas_of_at_most_one (db : DB) (d : AidDelivered) :
  unique_ids db -> (List.length (areas_of db d) <= 1)%nat.
Proof.
  intros [Hp Hr _]. unfold areas_of, requests_of.
  destruct (filter_key_unique r_id (rows (aid_requests db)) (d_request_id d) Hr)
    as [E | [r E]]; rewrite E; simpl; [lia |].
  rewrite app_nil_r, length_map. unfold persons_of.
  destruct (filter_key_unique p_id (rows (people db)) (r_person_id r) Hp)
    as [E' | [p E']]; rewrite E'; simpl; lia.
Qed.

(** X10.  With unique ids, the counts of [delivered_summary_by_area]
    never add up to more than the number of stored deliveries. *)
Theorem delivered_summary_total_bounded (db : DB) :
  unique_ids db ->
  total (map snd (delivered_summary_by_area db)) <= count_deliveries db.
Proof.
  intros Huniq. unfold delivered_summary_by_area, count_deliveries.
  rewrite (total_perm _ (map snd (group_count
             (map (fun t => p_area (snd t)) (from_delivered db)))))
    by (apply Permutation_map, order_by_desc_perm).
  rewrite group_count_total, summary_keys. apply inj_le.
  induction (rows (aid_delivered db)) as [| d ds IH]; simpl; [lia |].
  rewrite length_app. pose proof (areas_of_at_most_one db d Huniq). lia.
Qed.

Lemma delivered_summary_total_bounded_witness :
  total (map snd (delivered_summary_by_area stray_db))
  <= count_deliveries stray_db.
Proof.
  apply delivered_summary_total_bounded.
  constructor; simpl; distinct_ids.
Defined.

(** ** The filters of [search] at their edges *)





(** ** The catalogue of aid types *)

Lemma insert_text_perm {A : Type} (key : A -> string) (x : A) (l : list A) :
  Permutation (insert_text key x l) (x :: l).
Proof.
  induction l as [| y l IH]; simpl; [apply Permutation_refl |].
  destruct (String.leb (key x) (key y)); [apply Permutation_refl |].
  apply perm_trans with (y :: x :: l); [apply perm_skip, IH | apply perm_swap].
Qed.

Lemma order_by_text_perm {A : Type} (key : A -> string) (l : list A) :
  Permutation (order_by_text key l) l.
Proof.
  induction l as [| x l IH]; simpl; [apply perm_nil |].
  apply perm_trans with (x :: order_by_text key l);
    [apply insert_text_perm | apply perm_skip, IH].
Qed.

Lemma insert_text_sorted {A : Type} (key : A -> string) (x : A) (l : list A) :
  Sorted (fun a b => String.leb (key a) (key b) = true) l ->
  Sorted (fun a b => String.leb (key a) (key b) = true) (insert_text key x l).
Proof.
  induction 1 as [| y l Hs IH Hhd]; simpl.
  - constructor; constructor.
  - destruct (String.leb (key x) (key y)) eqn:E.
    + constructor; [constructor; assumption |]. constructor. exact E.
    + constructor; [exact IH |].
      destruct l as [| z l]; simpl.
      * constructor. destruct (String.leb_total (key x) (key y)); congruence.
      * destruct (String.leb (key x) (key z)).
        -- constructor.
           destruct (String.leb_total (key x) (key y)); congruence.
        -- constructor. inversion Hhd; assumption.
Qed.

Lemma order_by_text_sorted {A : Type} (key : A -> string) (l : list A) :
  Sorted (fun a b => String.leb (key a) (key b) = true) (order_by_text key l).
Proof.
  induction l as [| x l IH]; simpl; [constructor |].
  apply insert_text_sorted, IH.
Qed.

Lemma Sorted_map_key {A : Type} (key : A -> string) (l : list A) :
  Sorted (fun a b => String.leb (key a) (key b) = true) l ->
  Sorted (fun a b => String.leb a b = true) (map key l).
Proof.
  induction 1 as [| y l Hs IH Hhd]; simpl; constructor; [exact IH |].
  destruct Hhd; simpl; constructor. assumption.
Qed.

(** X12.  [list_aid_types] returns the names of the catalogue, each as
    often as it is stored, in ascending order.  After [init_db] on a
    store without a name twice it holds the five seed names and no name
    twice. *)
Theorem list_aid_types_sorted_catalogue (db : DB) :
  Permutation (list_aid_types db) (map t_aid_name (rows (aid_types db)))
  /\ Sorted (fun a b => String.leb a b = true) (list_aid_types db)
  /\ (unique_aid_names db ->
      NoDup (list_aid_types (init_db db))
      /\ forall s, In s seed_aid_names -> In s (list_aid_types (init_db db))).
Proof.
  assert (Hperm : forall d,
            Permutation (list_aid_types d) (map t_aid_name (rows (aid_types d)))).
  { intros d. unfold list_aid_types. apply Permutation_map, order_by_text_perm. }
  split; [apply Hperm | split].
  - unfold list_aid_types. apply Sorted_map_key, order_by_text_sorted.
  - intros Huniq. split.
    + apply Permutation_NoDup
        with (map t_aid_name (rows (aid_types (init_db db)))).
      * apply Permutation_sym, Hperm.
      * unfold init_db. cbn [aid_types]. apply seeded_unique, Huniq.
    + intros s Hs.
      apply (Permutation_in _ (Permutation_sym (Hperm (init_db db)))).
      unfold init_db. cbn [aid_types]. apply seeded_names. left. exact Hs.
Qed.

Lemma list_aid_types_sorted_catalogue_witness :
  NoDup (list_aid_types (init_db empty_db))
  /\ In "Water" (list_aid_types (init_db empty_db)).
Proof.
  destruct (list_aid_types_sorted_catalogue empty_db) as (_ & _ & H).
  destruct H as [H1 H2]; [constructor |].
  split; [exact H1 | apply H2; simpl; tauto].
Defined.

(** ** The reader on any text *)

Lemma splitlines_one_line_bounded (n : nat) (text : list ascii) :
  (List.length text <= n)%nat -> Forall one_line (splitlines text).
Proof.
  revert text. induction n as [| n IH]; intros text Hlen.
  - destruct text; [constructor | simpl in Hlen; lia].
  - destruct text as [| c rest]; [constructor |]. cbn [splitlines].
    simpl in Hlen.
    destruct (Ascii.eqb c LF) eqn:Elf.
    + apply Ascii.eqb_eq in Elf. subst c.
      constructor; [| apply IH; lia].
      exists [], [LF]. repeat split; [constructor | unfold line_ending; auto].
    + destruct (Ascii.eqb c CR) eqn:Ecr.
      * apply Ascii.eqb_eq in Ecr. subst c. destruct rest as [| d rest'].
        -- constructor; [| constructor].
           exists [], [CR]. repeat split; [constructor | unfold line_ending; auto].
        -- simpl in Hlen. destruct (Ascii.eqb d LF) eqn:Ed.
           ++ apply Ascii.eqb_eq in Ed. subst d.
              constructor; [| apply IH; lia].
              exists [], [CR; LF].
              repeat split; [constructor | unfold line_ending; auto].
           ++ constructor; [| apply IH; simpl; lia].
              exists [], [CR].
              repeat split; [constructor | unfold line_ending; auto].
      * assert (Hrest : Forall one_line (splitlines rest)) by (apply IH; lia).
        assert (Hc : newline c = false)
          by (unfold newline; rewrite Elf, Ecr; reflexivity).
        destruct (splitlines rest) as [| line more].
        -- constructor; [| constructor]. exists [c], [].
           repeat split; [constructor; [exact Hc | constructor] |].
           unfold line_ending. auto.
        -- inversion Hrest as [| ? ? Hline Hmore]; subst.
           constructor; [| exact Hmore].
           destruct Hline as (body & e & -> & Hb & He).
           exists (c :: body), e. repeat split; [constructor | ]; assumption.
Qed.

Lemma parse_body_char (r : Reader) (c : ascii) :
  state r <> EAT_CRNL -> newline c = false ->
  exists r', parse_process_char r (Char c) = Ok r' /\ state r' <> EAT_CRNL.
Proof.
  destruct r as [s f fs]. cbn [state]. intros Hs Hn.
  unfold parse_process_char, start_field. cbn [state].
  destruct s; try congruence; rewrite ?Hn;
    repeat match goal with
           | |- context [if ?b then _ else _] => destruct b
           end;
    eexists; (split; [reflexivity | cbn; discriminate]).
Qed.

Lemma parse_line_ending (r : Reader) (e : list ascii) :
  state r <> EAT_CRNL -> line_ending e ->
  exists r', parse_line r e = Ok r'
             /\ (state r' = START_RECORD \/ state r' = IN_QUOTED_FIELD).
Proof.
  destruct r as [s f fs]. cbn [state]. intros Hs He.
  destruct He as [-> | [-> | [-> | ->]]];
    destruct s; try congruence;
    eexists; (split; [cbv; reflexivity | cbn; auto]).
Qed.

Lemma parse_line_total (body e : list ascii) (r : Reader) :
  Forall (fun c => newline c = false) body ->
  state r <> EAT_CRNL -> line_ending e ->
  exists r', parse_line r (body ++ e) = Ok r'
             /\ (state r' = START_RECORD \/ state r' = IN_QUOTED_FIELD).
Proof.
  intros Hb. revert r. induction Hb as [| c body Hc Hb IH]; intros r Hs He.
  - apply parse_line_ending; assumption.
  - destruct (parse_body_char r c Hs Hc) as (r1 & Hstep & Hs1).
    cbn [app parse_line]. rewrite Hstep. apply IH; assumption.
Qed.

Lemma read_records_total (lines : list (list ascii)) (r : Reader) :
  Forall one_line lines ->
  state r = START_RECORD \/ state r = IN_QUOTED_FIELD ->
  exists records, read_records r lines = Ok records.
Proof.
  intros Hlines. revert r.
  induction Hlines as [| line more Hline Hmore IH]; intros r Hs.
  - simpl. destruct (_ || _)%bool; eauto.
  - destruct Hline as (body & e & -> & Hb & He).
    destruct (parse_line_total body e r Hb) as (r' & Hparse & Hs');
      [destruct Hs as [-> | ->]; discriminate | exact He |].
    cbn [read_records]. rewrite Hparse.
    destruct (in_state r' START_RECORD).
    + destruct (IH parse_reset) as (records & ->); [left; reflexivity |].
      simpl. eauto.
    + apply IH, Hs'.
Qed.

(** [csv_reader] accepts every text: on the lines of a file opened with
    [newline=''] the parser never meets a character after a line ending
    outside quotes, so it never raises its error. *)
Lemma csv_reader_never_raises (text : string) :
  exists records, csv_reader text = Ok records.
Proof.
  unfold csv_reader.
  destruct (read_records_total (splitlines (list_ascii_of_string text))
              parse_reset) as (records & ->).
  - apply (splitlines_one_line_bounded
             (List.length (list_ascii_of_string text))). lia.
  - left. reflexivity.
  - eauto.
Qed.

(** ** Rows without special characters *)

Lemma plain_written_field (f : list ascii) :
  Forall (fun c => special c = false) f -> written_field f = f.
Proof.
  intros Hf. unfold written_field.
  replace (snd (join_append_data f)) with false; [reflexivity |].
  symmetry. induction Hf as [| c f Hc Hf IH]; [reflexivity |].
  simpl. destruct (join_append_data f) as [copied quoted].
  rewrite Hc. exact IH.
Qed.

Lemma join_all_plain (row : list (list ascii)) (n : nat) :
  Forall (Forall (fun c => special c = false)) row -> row <> [] ->
  join_all n row
  = (if Nat.eqb n 0 then [] else [delimiter]) ++ join_cells row.
Proof.
  intros Hrow. revert n.
  induction Hrow as [| f rest Hf Hrest IH]; intros n Hne; [congruence |].
  cbn [join_all]. rewrite join_append_written, plain_written_field by exact Hf.
  destruct rest as [| g rest'].
  - cbn [join_all join_cells]. rewrite app_nil_r. reflexivity.
  - rewrite IH by discriminate. cbn [Nat.eqb join_cells].
    rewrite <- app_assoc. reflexivity.
Qed.

Lemma join_cells_nil (row : list (list ascii)) :
  join_cells row = [] -> row = [] \/ row = [[]].
Proof.
  destruct row as [| f [| g rest]]; simpl; auto.
  - intros ->. auto.
  - intros H. apply app_eq_nil in H. destruct H as [_ H]. discriminate.
Qed.

Lemma writerow_plain_cells (row : list (list ascii)) :
  Forall (Forall (fun c => special c = false)) row ->
  row <> [] -> row <> [[]] ->
  writerow row = join_cells row ++ [CR; LF].
Proof.
  intros Hrow Hne Hne'. unfold writerow.
  rewrite join_all_plain by assumption. cbn [Nat.eqb app].
  destruct (Nat.eqb (List.length (join_cells row)) 0) eqn:E.
  - apply Nat.eqb_eq, length_zero_iff_nil, join_cells_nil in E.
    destruct E; contradiction.
  - rewrite andb_false_r. reflexivity.
Qed.

(** X13.  When no row is empty or a single empty cell, and no cell holds
    a comma, a quote, CR or LF, [export_to_csv] writes each row as its
    cells, unchanged and without quotes, with commas between them and
    CR LF after the last; the rows follow each other in their order. *)
Theorem export_to_csv_plain_rows (data : list (list string)) :
  Forall (fun row =>
            row <> [] /\ row <> [""]
            /\ Forall (fun cell =>
                         Forall (fun c => special c = false)
                                (list_ascii_of_string cell)) row) data ->
  export_to_csv data
  = string_of_list_ascii
      (flat_map (fun row => join_cells (map list_ascii_of_string row)
                            ++ [CR; LF]) data).
Proof.
  intros Hdata. unfold export_to_csv, writerows. f_equal.
  rewrite flat_map_concat_map, map_map, <- flat_map_concat_map.
  apply flat_map_ext_in. intros row Hrow.
  rewrite Forall_forall in Hdata. destruct (Hdata row Hrow) as (Hne & Hne' & Hcells).
  apply writerow_plain_cells.
  - rewrite Forall_forall in Hcells |- *. intros cell Hcell.
    apply in_map_iff in Hcell. destruct Hcell as (c & <- & Hc).
    apply Hcells, Hc.
  - destruct row; [congruence | discriminate].
  - destruct row as [| c [| c' row']]; try discriminate.
    intros [= H]. apply Hne'. f_equal.
    destruct c; [reflexivity | discriminate].
Qed.

Lemma export_to_csv_plain_rows_witness :
  export_to_csv [["Name"; "Area"]; ["Asha"; "North"]]
  = string_of_list_ascii
      (flat_map (fun row => join_cells (map list_ascii_of_string row)
                            ++ [CR; LF])
                [["Name"; "Area"]; ["Asha"; "North"]]).
Proof.
  apply export_to_csv_plain_rows.
  repeat (constructor;
          [split; [discriminate |]; split; [discriminate |];
           repeat (constructor;
                   [repeat (constructor; [reflexivity |]); constructor |]);
           constructor |]).
  constructor.
Defined.

(** ** The ids in the selection lists *)

Lemma string_of_uint_no_blank (d : Decimal.uint) :
  no_blank (DecimalString.NilEmpty.string_of_uint d).
Proof.
  unfold no_blank. induction d; simpl; intros c Hc;
    try contradiction;
    (destruct Hc as [<- | Hc]; [discriminate | apply IHd, Hc]).
Qed.

Lemma py_str_no_blank (n : Z) : no_blank (py_str n).
Proof.
  unfold py_str, DecimalString.NilZero.string_of_int,
    DecimalString.NilZero.string_of_uint.
  assert (Hz : no_blank "0")
    by (intros c [<- | []]; discriminate).
  destruct (Z.to_int n) as [d | d].
  - destruct d; try exact Hz; apply string_of_uint_no_blank.
  - intros c [<- | Hc]; [discriminate |]. revert c Hc.
    destruct d; try exact Hz; apply string_of_uint_no_blank.
Qed.

Lemma prefix_separator (rest : string) :
  String.prefix " - " (" - " ++ rest)%string = true.
Proof.
  cbn [append String.prefix].
  repeat (destruct (ascii_dec _ _) as [_ | H];
          [| contradiction H; reflexivity]).
  destruct rest; reflexivity.
Qed.

Lemma prefix_separator_other (c : ascii) (s : string) :
  c <> " "%char -> String.prefix " - " (String c s) = false.
Proof.
  intros Hc. cbn [String.prefix].
  destruct (ascii_dec " " c) as [<- | _]; [contradiction | reflexivity].
Qed.

Lemma split_head_cons (sep : string) (c : ascii) (s : string) :
  split_head sep (String c s)
  = if String.prefix sep (String c s) then EmptyString
    else String c (split_head sep s).
Proof. reflexivity. Qed.

Lemma split_head_before (a rest : string) :
  no_blank a -> split_head " - " (a ++ " - " ++ rest)%string = a.
Proof.
  induction a as [| c a IH]; intros Ha.
  - change ("" ++ " - " ++ rest)%string
      with (String " " ("- " ++ rest))%string.
    rewrite split_head_cons.
    change (String " " ("- " ++ rest))%string with (" - " ++ rest)%string.
    rewrite prefix_separator. reflexivity.
  - change (String c a ++ " - " ++ rest)%string
      with (String c (a ++ " - " ++ rest))%string.
    rewrite split_head_cons, prefix_separator_other.
    + f_equal. apply IH. intros d Hd. apply Ha. right. exact Hd.
    + apply Ha. left. reflexivity.
Qed.

Lemma codepoints_cons (c : ascii) (s : string) :
  codepoints (String c s) = N_of_ascii c :: codepoints s.
Proof. reflexivity. Qed.

Lemma decimal_value_acc (d : Decimal.uint) (p : positive) :
  decimal_value (Z.pos p) (codepoints (DecimalString.NilEmpty.string_of_uint d))
  = Some (Z.pos (Pos.of_uint_acc d p)).
Proof.
  revert p. induction d; intros p;
    cbn [DecimalString.NilEmpty.string_of_uint Pos.of_uint_acc];
    [reflexivity | ..];
    rewrite codepoints_cons; cbn [decimal_value];
    match goal with
    | |- context [decimal_digit ?c] =>
        let v := eval vm_compute in (decimal_digit c) in
        change (decimal_digit c) with v
    end;
    cbv iota; rewrite <- IHd; f_equal; lia.
Qed.

Lemma decimal_value_uint (d : Decimal.uint) :
  decimal_value 0 (codepoints (DecimalString.NilEmpty.string_of_uint d))
  = Some (Z.of_N (Pos.of_uint d)).
Proof.
  induction d;
    cbn [DecimalString.NilEmpty.string_of_uint Pos.of_uint];
    [reflexivity | ..];
    rewrite codepoints_cons; cbn [decimal_value];
    match goal with
    | |- context [decimal_digit ?c] =>
        let v := eval vm_compute in (decimal_digit c) in
        change (decimal_digit c) with v
    end;
    cbv iota; [exact IHd | ..];
    match goal with
    | |- decimal_value ?z _ = _ =>
        let v := eval vm_compute in z in change z with v
    end;
    rewrite decimal_value_acc; reflexivity.
Qed.

Lemma decimal_value_py_str (n : Z) :
  0 <= n -> decimal_value 0 (codepoints (py_str n)) = Some n.
Proof.
  intros Hn. destruct n as [| p | p]; [reflexivity | | lia].
  unfold py_str. cbn [Z.to_int DecimalString.NilZero.string_of_int].
  pose proof (DecimalPos.Unsigned.of_to p) as Hp.
  unfold DecimalString.NilZero.string_of_uint.
  destruct (Pos.to_uint p) eqn:E; try discriminate Hp;
    rewrite decimal_value_uint, Hp; reflexivity.
Qed.

(** X14.  The text before the first [" - "] of an entry of the person
    list is the decimal text of that person's id, and likewise for the
    entries of the request list of the delivery form, whatever the names
    and areas hold; and the decimal text of an id that is not negative
    reads back as that id. *)
Theorem selection_labels_lead_with_id (db : DB) :
  map (split_head " - ") (refresh_people db)
  = map (fun row => py_str (fst (fst (fst row)))) (list_people db)
  /\ map (split_head " - ") (deliver_refresh db)
     = map (fun row => py_str (first_column row)) (list_pending_requests db)
  /\ (forall n, 0 <= n -> decimal_value 0 (codepoints (py_str n)) = Some n).
Proof.
  split; [| split].
  - unfold refresh_people. rewrite map_map. apply map_ext.
    intros [[[id name] area] age]. unfold person_label.
    apply split_head_before, py_str_no_blank.
  - unfold deliver_refresh. rewrite map_map. apply map_ext.
    intros [[[[id name] area] aid] day]. unfold request_label, first_column.
    cbn [fst]. apply split_head_before, py_str_no_blank.
  - apply decimal_value_py_str.
Qed.

Lemma selection_labels_lead_with_id_witness :
  decimal_value 0 (codepoints (py_str 42)) = Some 42.
Proof.
  destruct (selection_labels_lead_with_id sample_db) as (_ & _ & H).
  apply H. lia.
Defined.

(** ** What the tables on screen show *)

Lemma enumerate_from_rows {A : Type} (i : nat) (l : list A) :
  map snd (enumerate_from i l) = l.
Proof.
  revert i. induction l as [| x l IH]; intros i; simpl; [reflexivity |].
  rewrite IH. reflexivity.
Qed.

Lemma enumerate_from_nth {A : Type} (l : list A) (i k : nat) :
  nth_error (enumerate_from k l) i
  = option_map (fun x => ((k + i)%nat, x)) (nth_error l i).
Proof.
  revert i k. induction l as [| x l IH]; intros i k.
  - destruct i; reflexivity.
  - destruct i as [| i]; simpl.
    + rewrite Nat.add_0_r. reflexivity.
    + rewrite IH. replace (S k + i)%nat with (k + S i)%nat by lia.
      reflexivity.
Qed.

Lemma stripe_alternates (i : nat) : stripe i <> stripe (S i).
Proof.
  unfold stripe.
  replace (S i) with (1 + i)%nat by reflexivity.
  pose proof (Nat.mod_upper_bound i 2 ltac:(lia)) as Hi.
  rewrite (Nat.Div0.add_mod 1 i 2).
  destruct (i mod 2)%nat as [| [| m]] eqn:E; simpl; try discriminate. lia.
Qed.

(** X15.  [refresh_tree] shows exactly the given rows, in their order,
    whatever was shown before, and two rows next to each other never
    carry the same stripe tag. *)
Theorem refresh_tree_shows_rows {A : Type} (shown : list (A * list string))
    (data : list A) :
  map fst (refresh_tree shown data) = data
  /\ (forall i a b ta tb,
        nth_error (refresh_tree shown data) i = Some (a, ta) ->
        nth_error (refresh_tree shown data) (S i) = Some (b, tb) ->
        ta <> tb).
Proof.
  unfold refresh_tree. split.
  - rewrite map_map. simpl. apply enumerate_from_rows.
  - intros i a b ta tb Ha Hb.
    rewrite nth_error_map, enumerate_from_nth in Ha, Hb.
    destruct (nth_error data i); [| discriminate].
    destruct (nth_error data (S i)); [| discriminate].
    simpl in Ha, Hb. injection Ha as _ <-. injection Hb as _ <-.
    intros [= H]. exact (stripe_alternates i H).
Qed.

Lemma refresh_tree_shows_rows_witness :
  map fst (refresh_tree [] (list_people sample_db)) = list_people sample_db.
Proof.
  destruct (refresh_tree_shows_rows [] (list_people sample_db)) as [H _].
  exact H.
Defined.

(** X16.  [SearchTab.refresh] shows the rows of [search] in their order.
    A row is tagged [pending] exactly when its last column reads PENDING:
    always for a request without delivery, and for a delivered one only
    when the delivery date is that very text; every other row is tagged
    [delivered]. *)
Theorem search_refresh_tags (area status : string) (db : DB) :
  map fst (search_refresh area status db) = search area status db
  /\ (forall row tags,
        In (row, tags) (search_refresh area status db) ->
        exists j stripe_tag,
          In j (search_rows area status db) /\ row = search_select j
          /\ (tags = ["pending"; stripe_tag] \/ tags = ["delivered"; stripe_tag])
          /\ (tags = ["pending"; stripe_tag] <->
              j_d j = None
              \/ exists d, j_d j = Some d /\ d_delivery_date d = "PENDING")).
Proof.
  unfold search_refresh. split.
  - rewrite map_map. simpl. apply enumerate_from_rows.
  - intros row tags Hin. apply in_map_iff in Hin.
    destruct Hin as ([i r] & [= <- <-] & Hir). cbn [fst snd].
    assert (Hr : In r (search area status db)).
    { rewrite <- (enumerate_from_rows 0 (search area status db)).
      apply (in_map snd) in Hir. exact Hir. }
    unfold search in Hr. apply in_map_iff in Hr. destruct Hr as (j & <- & Hj).
    exists j, (stripe i). split; [exact Hj |]. split; [reflexivity |].
    unfold search_tag, search_select, status_column. cbn [snd].
    destruct (j_d j) as [d |].
    + destruct (String.eqb (d_delivery_date d) "PENDING") eqn:E.
      * apply String.eqb_eq in E. split; [left; reflexivity |].
        split; [intros _; right; exists d; auto | reflexivity].
      * apply String.eqb_neq in E. split; [right; reflexivity |].
        split; [discriminate |].
        intros [H | (d' & [= <-] & H)]; [discriminate | contradiction].
    + split; [left; reflexivity |]. split; [auto | reflexivity].
Qed.

(** ** Exports of different tables *)

Lemma csv_round_trip_any (data : list (list string)) :
  csv_reader (export_to_csv data) = Ok data.
Proof.
  unfold csv_reader, export_to_csv.
  rewrite list_ascii_of_string_of_list_ascii, read_records_run, run_writerows.
  rewrite map_map_id. reflexivity.
Qed.

(** X17.  Two different tables are never exported to the same text. *)
Theorem export_to_csv_injective (data data' : list (list string)) :
  export_to_csv data = export_to_csv data' -> data = data'.
Proof.
  intros H. apply (f_equal csv_reader) in H.
  rewrite !csv_round_trip_any in H. injection H as H. exact H.
Qed.

Lemma export_to_csv_injective_witness :
  [["a"; "b"]] = [["a"; "b"]].
Proof.
  apply export_to_csv_injective. reflexivity.
Defined.

(** ** Registering a person and the request views *)

Lemma persons_of_with_person (db : DB) (p : Person) (pid : Z) :
  pid <> p_id p ->
  persons_of (with_person db p) pid = persons_of db pid.
Proof.
  intros Hne. unfold persons_of, with_person. cbn [people rows].
  rewrite filter_app. simpl.
  replace (p_id p =? pid) with false; [apply app_nil_r |].
  symmetry. apply Z.eqb_neq. congruence.
Qed.

Lemma from_requests_with_person (db : DB) (p : Person) :
  (forall r, In r (rows (aid_requests db)) -> r_person_id r <> p_id p) ->
  from_requests (with_person db p) = from_requests db.
Proof.
  intros Hne. unfold from_requests.
  change (rows (aid_requests (with_person db p))) with (rows (aid_requests db)).
  apply flat_map_ext_in. intros r Hr.
  rewrite persons_of_with_person by (apply Hne, Hr). reflexivity.
Qed.

(** X18.  In a store where every request names a stored person, a
    successful [add_person] changes neither [list_pending_requests] nor
    any result of [search]. *)
Theorem add_person_keeps_request_views (name area : string) (age : option Z)
    (db db' : DB) :
  (forall r, In r (rows (aid_requests db)) -> person_exists db r) ->
  add_person name area age db = Ok db' ->
  list_pending_requests db' = list_pending_requests db
  /\ forall a status, search a status db' = search a status db.
Proof.
  intros Hrefs Hadd.
  assert (Hfrom : from_requests db' = from_requests db).
  { unfold add_person in Hadd.
    destruct (bind_optional_int (age_or_none age)) as [stored |];
      [| discriminate].
    injection Hadd as <-.
    apply (from_requests_with_person db
             (mkPerson (new_rowid p_id (people db)) name area stored)).
    intros r Hr Heq. destruct (Hrefs r Hr) as (q & Hq & Hid).
    apply (new_rowid_above p_id) in Hq. simpl in Heq. lia. }
  split.
  - unfold list_pending_requests, pending_rows. rewrite Hfrom. reflexivity.
  - intros a status. unfold search, search_rows. rewrite Hfrom. reflexivity.
Qed.

Lemma add_person_keeps_request_views_witness :
  list_pending_requests
    (with_person sample_db (mkPerson 3 "Mina" "East" None))
  = list_pending_requests sample_db.
Proof.
  destruct (add_person_keeps_request_views "Mina" "East" None sample_db
              (with_person sample_db (mkPerson 3 "Mina" "East" None)))
    as [H _].
  - intros r [<- | [<- | [<- | []]]].
    + exists (mkPerson 1 "Asha" "North" (Some 34)). simpl. auto.
    + exists (mkPerson 2 "Ravi" "South" None). simpl. auto.
    + exists (mkPerson 1 "Asha" "North" (Some 34)). simpl. auto.
  - reflexivity.
  - exact H.
Defined.

(** ** A delivery and the summary *)

Lemma delivered_to_area_request (db : DB) (r : AidRequest) (p : Person)
    (d : AidDelivered) (area : string) :
  unique_ids db ->
  In r (rows (aid_requests db)) -> In p (rows (people db)) ->
  p_id p = r_person_id r -> d_request_id d = r_id r ->
  delivered_to_area db area d = String.eqb (p_area p) area.
Proof.
  intros [Hp Hr _] Hin Hinp Hid Hd. unfold delivered_to_area.
  rewrite existsb_filter, Hd, (filter_key_found r_id _ r Hr Hin). simpl.
  rewrite orb_false_r, existsb_filter, <- Hid.
  rewrite (filter_key_found p_id _ p Hp Hinp). simpl.
  apply orb_false_r.
Qed.

(** X19.  With unique ids, a successful [mark_delivered] for a stored
    request of a stored person raises the count of that person's area in
    [delivered_summary_by_area] by one: the summary then has the row of
    that area with the number of its deliveries before, plus one. *)
Theorem mark_delivered_counts_in_summary (r : AidRequest) (p : Person)
    (item d_date : string) (db db' : DB) :
  unique_ids db ->
  In r (rows (aid_requests db)) -> In p (rows (people db)) ->
  p_id p = r_person_id r ->
  mark_delivered (r_id r) item d_date db = Ok db' ->
  In (p_area p, delivered_in_area db (p_area p) + 1)
     (delivered_summary_by_area db').
Proof.
  intros Huniq Hr Hp Hid Hmark.
  pose proof (mark_delivered_unique_ids _ _ _ _ _ Huniq Hmark) as Huniq'.
  unfold mark_delivered, bind_int in Hmark.
  destruct (fits_int64 (r_id r)); [| discriminate]. injection Hmark as <-.
  set (d := mkAidDelivered (new_rowid d_id (aid_delivered db)) (r_id r)
                           item d_date) in *.
  unfold delivered_summary_by_area.
  apply order_by_desc_In, in_group_count.
  rewrite summary_count by exact Huniq'.
  assert (Hcount :
    delivered_in_area
      (mkDB (people db) (aid_types db) (aid_requests db)
            (insert d_id (fun v => mkAidDelivered v (r_id r) item d_date)
                    (aid_delivered db))) (p_area p)
    = delivered_in_area db (p_area p) + 1).
  { unfold delivered_in_area, insert. cbn [aid_delivered rows]. fold d.
    rewrite filter_app, length_app, Nat2Z.inj_add. f_equal.
    simpl filter.
    change (delivered_to_area
              (mkDB (people db) (aid_types db) (aid_requests db)
                    (mkTable (rows (aid_delivered db) ++ [d])
                             (new_rowid d_id (aid_delivered db))))
              (p_area p) d)
      with (delivered_to_area db (p_area p) d).
    rewrite (delivered_to_area_request db r p d (p_area p) Huniq Hr Hp Hid eq_refl).
    rewrite String.eqb_refl. reflexivity. }
  rewrite Hcount. split; [reflexivity |].
  unfold delivered_in_area. lia.
Qed.

Lemma mark_delivered_counts_in_summary_witness :
  In ("North", 3)
     (delivered_summary_by_area
        (mkDB (people sample_db) (aid_types sample_db)
              (aid_requests sample_db)
              (insert d_id (fun v => mkAidDelivered v 3 "Tent" "2024-01-15")
                      (aid_delivered sample_db)))).
Proof.
  apply (mark_delivered_counts_in_summary
           (mkAidRequest 3 1 "Shelter" "2024-01-12")
           (mkPerson 1 "Asha" "North" (Some 34)) "Tent" "2024-01-15"
           sample_db).
  - constructor; simpl; distinct_ids.
  - simpl. auto.
  - simpl. auto.
  - reflexivity.
  - reflexivity.
Defined.

(** ** What the registration form can store *)

(** X20.  Whenever [PeopleTab.on_add] adds a person, the name and the
    area are not empty and the stored age is NULL or an integer from 1
    to 2^63 - 1: the form stores neither the age 0 nor a negative age. *)
Theorem on_add_stores_checked_person (lim : option nat)
    (name area : string) (age : pystr) (db : DB) :
  fst (on_add lim name area age db) = Added ->
  name <> "" /\ area <> ""
  /\ exists v stored,
       snd (on_add lim name area age db)
       = with_person db (mkPerson v name area stored)
       /\ (stored = None \/ exists z, stored = Some z /\ 1 <= z < 2 ^ 63).
Proof.
  unfold on_add.
  destruct (String.eqb name "") eqn:En; [discriminate |].
  destruct (String.eqb area "") eqn:Ea; [discriminate |].
  apply String.eqb_neq in En, Ea. cbn [orb].
  destruct (nonempty age && negb (isdigit age))%bool;
    [discriminate |].
  assert (Hadd : forall a,
            (forall z, a = Some z -> 0 <= z) ->
            fst (match add_person name area a db with
                 | Ok db' => (Added, db')
                 | Raise e => (Uncaught e, db)
                 end) = Added ->
            exists v stored,
              snd (match add_person name area a db with
                   | Ok db' => (Added, db')
                   | Raise e => (Uncaught e, db)
                   end)
              = with_person db (mkPerson v name area stored)
              /\ (stored = None
                  \/ exists z, stored = Some z /\ 1 <= z < 2 ^ 63)).
  { intros a Hpos. unfold add_person, bind_optional_int.
    destruct (age_or_none a) as [z |] eqn:Ez.
    - unfold bind_int. destruct (fits_int64 z) eqn:Ef; [| discriminate].
      intros _. exists (new_rowid p_id (people db)), (Some z).
      split; [reflexivity |]. right. exists z. split; [reflexivity |].
      apply age_or_none_range in Ez. destruct Ez as [-> Hz].
      specialize (Hpos z eq_refl). unfold fits_int64 in Ef.
      apply andb_true_iff in Ef. destruct Ef as [_ Ef].
      apply Z.ltb_lt in Ef. lia.
    - intros _. exists (new_rowid p_id (people db)), None.
      split; [reflexivity | left; reflexivity]. }
  intros H. split; [exact En |]. split; [exact Ea |].
  destruct age as [| c s]; cbn [nonempty] in *.
  - apply (Hadd None); [discriminate | exact H].
  - unfold py_int in *.
    destruct (within_digit_limit lim (c :: s)); [| discriminate].
    destruct (decimal_value 0 (c :: s)) as [v |] eqn:Ev; [| discriminate].
    apply (Hadd (Some v)); [| exact H].
    intros z [= <-].
    apply (decimal_value_digits (c :: s) 0 v (Z.le_refl 0) Ev).
Qed.

Lemma on_add_stores_checked_person_witness :
  exists v stored,
    snd (on_add (Some 4300%nat) "Mina" "East" (codepoints "0") sample_db)
    = with_person sample_db (mkPerson v "Mina" "East" stored)
    /\ (stored = None \/ exists z, stored = Some z /\ 1 <= z < 2 ^ 63).
Proof.
  destruct (on_add_stores_checked_person (Some 4300%nat) "Mina" "East"
              (codepoints "0") sample_db) as (_ & _ & H).
  - reflexivity.
  - exact H.
Defined.

Lemma search_refresh_tags_witness :
  map fst (search_refresh "" "All" sample_db) = search "" "All" sample_db.
Proof.
  destruct (search_refresh_tags "" "All" sample_db) as [H _].
  exact H.
Defined.
